(** * E-commerce platform: data-layer models (Mongoose schemas) in Rocq

    A shallow embedding of the instance methods, statics, virtuals,
    save/delete hooks and [match] patterns of
    [backend/src/models/{Category,Product,Order,User}.ts] and of the Review
    model, followed by the properties the specification states about them
    and by further properties of the same code: invariants of slugs, stock,
    timelines and votes, round trips, the aggregation statics, and the
    languages of the phone and email patterns.

    Modelling conventions, used throughout:
    - a JavaScript [number] is an IEEE binary64 double.  The module
      [Binary64] embeds on doubles, with the rounded operations the code
      performs, the methods whose properties are about computed values:
      [calculateTotals], [reduceStock], [calculateDiscountedPrice] and the
      percentages of the review statistics.  The other modules carry
      numbers as exact rationals ([Q], statements up to [==]) and state of
      them only what rounding leaves alone: counts, which are whole
      numbers, orderings and signs, and the rating aggregate, whose
      ratings and counts are whole numbers;
    - a [Date] is its time value, an integer count of milliseconds ([Z]);
      a clock read ([new Date()], [Date.now()]) is an explicit argument;
    - a string is a sequence of 8-bit code units (Latin-1);
    - an [ObjectId] is the 96-bit number it encodes ([N]);
    - [undefined] / a missing field is [None];
    - a rejected promise / thrown [Error] is [Err];
    - [save] on a product or an order is its success path (hooks included);
      on a review it also validates the rating and enforces the unique
      index, since the rating aggregate is about saves that succeed. *)

From Stdlib Require Import ZArith QArith Qround Qminmax Qabs.
From Stdlib Require Import String Ascii List SetoidList Bool Lia Lqa Floats.
From stdpp Require Import base option list gmap.
Import ListNotations.

Local Open Scope Q_scope.

(* ------------------------------------------------------------------------- *)
(** * JavaScript values shared by all models                                   *)
(* ------------------------------------------------------------------------- *)

Module JS.

Definition ObjectId := N.
Definition Date := Z.
Bind Scope N_scope with ObjectId.
Bind Scope Z_scope with Date.

Inductive Error :=
| InsufficientStock          (* new Error('Insufficient stock') *)
| BSONError                  (* malformed ObjectId string *)
| ValidationError
| DuplicateKey
| DocumentNotFound.

Inductive Result (A : Type) :=
| Ok (a : A)
| Err (e : Error).
Arguments Ok {A} a.
Arguments Err {A} e.

(** Truthiness of a string, as [!x] and [x || y] test it. *)
Definition truthy_string (s : string) : bool :=
  match s with EmptyString => false | String _ _ => true end.

Definition truthy_opt_string (s : option string) : bool :=
  match s with Some s => truthy_string s | None => false end.

(** [Math.round]: the nearest integer, a tie going towards +infinity. *)
Definition Math_round (x : Q) : Z := Qfloor (x + (1 # 2)).

(** [Math.max(a, b)]. *)
Definition Math_max (a b : Q) : Q := if Qle_bool a b then b else a.

(** [a < b] and [a > b] on numbers. *)
Definition lt (a b : Q) : bool := negb (Qle_bool b a).
Definition gt (a b : Q) : bool := lt b a.

(** [array.length] as a number. *)
Definition length_number {A} (l : list A) : Q := inject_Z (Z.of_nat (length l)).

End JS.
Export JS.

(** The numeric methods of the models on IEEE binary64, the arithmetic
    JavaScript performs: every [+], [-], [*] and [/] of this module is the
    rounded operation, and every comparison is false on NaN. *)
Module Binary64.

Local Open Scope float_scope.
#[local] Set Warnings "-inexact-float".

(** [price * (1 - value / 100)] *)
Definition percentage_price (price value : float) : float :=
  price * (1 - value / 100).

(** [Math.max(0, price - value)], for operands that are numbers. *)
Definition fixed_price (price value : float) : float :=
  let reduced := price - value in
  if 0 <? reduced then reduced else 0.

(** [totalRating / reviews.length * 10], the argument of [Math.round]. *)
Definition ten_times_mean (total : float) (n : float) : float :=
  total / n * 10.

(** *** JavaScript numbers *)

(** Truthiness of a number: [0], [-0] and [NaN] are falsy. *)
Definition truthy (x : float) : bool := negb (is_zero x || is_nan x).

(** [x || d]. *)
Definition number_or (x d : float) : float := if truthy x then x else d.

(** A path read inside an arithmetic expression: [undefined] converts to
    NaN. *)
Definition to_number (v : option float) : float :=
  match v with Some x => x | None => nan end.

(** [Math.max(a, b)]: NaN if either argument is, and [+0] above [-0]. *)
Definition Math_max (a b : float) : float :=
  if is_nan a || is_nan b then nan
  else if b <? a then a
  else if a <? b then b
  else if get_sign a then b else a.

(** The double nearest to an integer (ties to even): [Number(z)]. *)
Definition of_Z (z : Z) : float := SF2Prim (binary_normalize prec emax z 0 false).

(** The exact value of a finite double ([0] stands in for NaN and the
    infinities, which the callers below do not produce). *)
Definition to_Q (x : float) : Q :=
  match Prim2SF x with
  | S754_finite s m e => (inject_Z (if s then Z.neg m else Z.pos m) * 2 ^ e)%Q
  | _ => 0%Q
  end.

(** [Math.round] on a finite double: the nearest integer of its exact
    value, a tie going towards +infinity. *)
Definition Math_round (x : float) : Z := Qfloor (to_Q x + (1 # 2))%Q.

(** ** Order totals (Order.ts 219-232) *)

Module Order.

Record OrderItem := mkItem {
  product : ObjectId;
  quantity : float;
  price : float
}.

Record OrderPricing := mkPricing {
  subtotal : float;
  tax : float;
  shipping : float;
  discount : float;
  total : float
}.

(** The paths of an order that [calculateTotals] reads. *)
Record OrderDocument := mkOrder {
  items : list OrderItem;
  pricing : option OrderPricing
}.

Definition calculateTotals (o : OrderDocument) : OrderPricing :=
  let subtotal := fold_left (fun sum item => sum + price item * quantity item) (items o) 0 in
  let tax := subtotal * 0.16 in
  let shipping := if 5000 <? subtotal then 0 else 200 in
  let carried := match pricing o with Some p => number_or (discount p) 0 | None => 0 end in
  let total := subtotal + tax + shipping - carried in
  mkPricing subtotal tax shipping carried total.

(** The sum over the line items of unit price times quantity, added up from
    [acc] in the order of the list. *)
Fixpoint sum_from (acc : float) (items : list OrderItem) : float :=
  match items with
  | [] => acc
  | item :: rest => sum_from (acc + price item * quantity item) rest
  end.

Definition line_items_sum (items : list OrderItem) : float := sum_from 0 items.

(** Sample documents: three lines whose decimal prices add up to 5000, and
    three units at 0.1. *)
Definition near_threshold : OrderDocument :=
  mkOrder [mkItem 1 1 112.52; mkItem 2 5 843.51; mkItem 3 1 669.93] None.

Definition three_tenths : OrderDocument :=
  mkOrder [mkItem 1 3 0.1] (Some (mkPricing 0 0 0 0.05 0)).

End Order.

(** ** Stock and discounts (Product.ts 200-214, 236-242) *)

Module Product.

Record Discount := mkDiscount {
  type : option string;
  value : option float;
  startDate : option Date;
  endDate : option Date
}.

(** The numeric paths of a product and its discount. *)
Record ProductDocument := mkProduct {
  price : float;
  stock : float;
  discount : option Discount
}.

Definition set_stock (s : float) (p : ProductDocument) : ProductDocument :=
  mkProduct (price p) s (discount p).

(** [calculateDiscountedPrice], [now] being the value of [new Date()]. *)
Definition calculateDiscountedPrice (now : Date) (p : ProductDocument) : float :=
  match discount p with
  | None => price p
  | Some d =>
      if match startDate d with Some s => (now <? s)%Z | None => false end
      then price p
      else if match endDate d with Some e => (e <? now)%Z | None => false end
      then price p
      else
        match type d with
        | Some ty =>
            if String.eqb ty "percentage"
            then price p * (1 - to_number (value d) / 100)
            else if String.eqb ty "fixed"
            then Math_max 0 (price p - to_number (value d))
            else price p
        | None => price p
        end
  end.

(** [reduceStock]: the document after the call, and how the promise
    settled.  [save] is on its success path for the other paths; on [stock]
    it runs the validators of the schema: the Number cast refuses NaN (the
    assignment is then dropped) and [min: 0] refuses a stock below zero. *)
Definition reduceStock (quantity : float) (p : ProductDocument)
  : ProductDocument * Result unit :=
  if stock p <? quantity
  then (p, Err InsufficientStock)
  else
    let stock' := stock p - quantity in
    if is_nan stock' then (p, Err ValidationError)
    else if stock' <? 0 then (set_stock stock' p, Err ValidationError)
    else (set_stock stock' p, Ok tt).

(** The current time lies in the discount's window, a missing bound being
    unbounded on its side. *)
Definition in_window (now : Date) (d : Discount) : Prop :=
  (forall s, startDate d = Some s -> (s <= now)%Z)
  /\ (forall e, endDate d = Some e -> (now <= e)%Z).

(** Sample documents. *)
Definition five_in_stock : ProductDocument := mkProduct 100 5 None.

Definition product_with (d : Discount) : ProductDocument := mkProduct 100 5 (Some d).


End Product.

End Binary64.

(* ------------------------------------------------------------------------- *)
(** * Regular expressions of the schema validators                             *)
(* ------------------------------------------------------------------------- *)

(** The patterns of the [match] validators use classes, sequence,
    alternation and the quantifiers [*], [+], [?], [{n}] and [{n,m}], all
    between [^] and [$]: [test] asks whether the whole string is in the
    language of the pattern.  It is decided by derivatives. *)
Module Regex.

Inductive regex :=
| Void                          (* matches nothing *)
| Eps                           (* the empty pattern *)
| Class (p : ascii -> bool)     (* one code unit of a class *)
| Seq (a b : regex)
| Alt (a b : regex)
| Star (a : regex).

Definition Plus (a : regex) : regex := Seq a (Star a).
Definition Opt (a : regex) : regex := Alt a Eps.

(** [a{n}] and [a{0,n}]. *)
Fixpoint Repeat (n : nat) (a : regex) : regex :=
  match n with
  | O => Eps
  | S n' => Seq a (Repeat n' a)
  end.

Fixpoint AtMost (n : nat) (a : regex) : regex :=
  match n with
  | O => Eps
  | S n' => Opt (Seq a (AtMost n' a))
  end.

(** A literal character and a literal string. *)
Definition Chr (c : ascii) : regex := Class (Ascii.eqb c).

Fixpoint Lit (l : list ascii) : regex :=
  match l with
  | [] => Eps
  | c :: t => Seq (Chr c) (Lit t)
  end.

Fixpoint nullable (r : regex) : bool :=
  match r with
  | Void => false
  | Eps => true
  | Class _ => false
  | Seq a b => nullable a && nullable b
  | Alt a b => nullable a || nullable b
  | Star _ => true
  end.

Fixpoint derive (c : ascii) (r : regex) : regex :=
  match r with
  | Void => Void
  | Eps => Void
  | Class p => if p c then Eps else Void
  | Seq a b =>
      if nullable a
      then Alt (Seq (derive c a) b) (derive c b)
      else Seq (derive c a) b
  | Alt a b => Alt (derive c a) (derive c b)
  | Star a => Seq (derive c a) (Star a)
  end.

(** [/^r$/.test(s)]. *)
Fixpoint test (r : regex) (s : list ascii) : bool :=
  match s with
  | [] => nullable r
  | c :: t => test (derive c r) t
  end.

(** The language of a pattern. *)
Inductive matches : regex -> list ascii -> Prop :=
| MEps : matches Eps []
| MClass p c : p c = true -> matches (Class p) [c]
| MSeq a b s t : matches a s -> matches b t -> matches (Seq a b) (s ++ t)
| MAltL a b s : matches a s -> matches (Alt a b) s
| MAltR a b s : matches b s -> matches (Alt a b) s
| MStar0 a : matches (Star a) []
| MStarS a s t : matches a s -> matches (Star a) t -> matches (Star a) (s ++ t).

(** The classes [\w] and [\d]. *)
Definition word (c : ascii) : bool :=
  let n := N_of_ascii c in
  ((97 <=? n) && (n <=? 122) || (65 <=? n) && (n <=? 90)
   || (48 <=? n) && (n <=? 57) || (n =? 95))%N.

Definition digit (c : ascii) : bool :=
  let n := N_of_ascii c in ((48 <=? n) && (n <=? 57))%N.

End Regex.

(* ------------------------------------------------------------------------- *)
(** * Slug derivation (Category.ts 71-79, Product.ts 188-197)                  *)
(* ------------------------------------------------------------------------- *)

Module Slug.

Definition code (c : ascii) : N := N_of_ascii c.

Definition in_range (lo hi : N) (c : ascii) : bool :=
  ((lo <=? code c) && (code c <=? hi))%N.

(** [String.prototype.toLowerCase] on Latin-1 code units: A-Z, and the
    accented capitals U+00C0-U+00DE except the multiplication sign. *)
Definition toLowerCase_char (c : ascii) : ascii :=
  if in_range 65 90 c || (in_range 192 222 c && negb (code c =? 215)%N)
  then ascii_of_N (code c + 32)
  else c.

Definition toLowerCase (s : list ascii) : list ascii := map toLowerCase_char s.

(** The character class [[a-z0-9]]. *)
Definition lower_alnum (c : ascii) : bool := in_range 97 122 c || in_range 48 57 c.

Definition hyphen : ascii := "-"%char.
Definition is_hyphen (c : ascii) : bool := (code c =? 45)%N.

(** [.replace(/[^a-z0-9]+/g, '-')]: a left-to-right scan; [in_run] records
    that the match in progress has already produced its hyphen. *)
Fixpoint replace_runs (in_run : bool) (s : list ascii) : list ascii :=
  match s with
  | [] => []
  | c :: t =>
      if lower_alnum c then c :: replace_runs false t
      else if in_run then replace_runs true t
      else hyphen :: replace_runs true t
  end.

(** [.replace(/(^-|-$)/g, '')]: the first alternative can only match at
    index 0, the second only at the last index. *)
Definition strip_first (s : list ascii) : list ascii :=
  match s with
  | c :: t => if is_hyphen c then t else s
  | [] => []
  end.

Fixpoint strip_last (s : list ascii) : list ascii :=
  match s with
  | [] => []
  | [c] => if is_hyphen c then [] else [c]
  | c :: t => c :: strip_last t
  end.

Definition strip_edges (s : list ascii) : list ascii := strip_last (strip_first s).

(** The expression assigned to the slug in both pre-save hooks. *)
Definition slugify (name : list ascii) : list ascii :=
  strip_edges (replace_runs false (toLowerCase name)).

(** Schema setters of the slug paths ([lowercase: true, trim: true]),
    applied by Mongoose when the hook assigns the slug. *)
Definition is_space (c : ascii) : bool :=
  in_range 9 13 c || (code c =? 32)%N || (code c =? 160)%N.

Fixpoint drop_while (p : ascii -> bool) (s : list ascii) : list ascii :=
  match s with
  | [] => []
  | c :: t => if p c then drop_while p t else s
  end.

Definition trim (s : list ascii) : list ascii :=
  rev (drop_while is_space (rev (drop_while is_space s))).

Definition slug_setter (v : string) : string :=
  string_of_list_ascii (trim (toLowerCase (list_ascii_of_string v))).

Definition generate_slug (name : string) : string :=
  slug_setter (string_of_list_ascii (slugify (list_ascii_of_string name))).

(** ** The specification's wording *)

(** Maximal runs of characters of one class (inside or outside [[a-z0-9]]). *)
Fixpoint runs (s : list ascii) : list (list ascii) :=
  match s with
  | [] => []
  | c :: t =>
      match runs t with
      | (d :: r) :: rest =>
          if Bool.eqb (lower_alnum c) (lower_alnum d)
          then (c :: d :: r) :: rest
          else [c] :: (d :: r) :: rest
      | _ => [[c]]
      end
  end.

(** A run outside [[a-z0-9]] becomes a single hyphen; other runs are kept. *)
Definition render_run (r : list ascii) : list ascii :=
  match r with
  | c :: _ => if lower_alnum c then r else [hyphen]
  | [] => []
  end.

Definition spec_collapse (s : list ascii) : list ascii :=
  concat (map render_run (runs s)).

(** All leading and all trailing hyphens removed. *)
Definition spec_strip (s : list ascii) : list ascii :=
  rev (drop_while is_hyphen (rev (drop_while is_hyphen s))).

Definition spec_slug (name : string) : string :=
  string_of_list_ascii
    (spec_strip (spec_collapse (toLowerCase (list_ascii_of_string name)))).

(** ** Vocabulary of the properties *)

(** A character a slug is made of. *)
Definition slug_char (c : ascii) : bool := lower_alnum c || is_hyphen c.

(** No two hyphens side by side. *)
Fixpoint separated (s : list ascii) : bool :=
  match s with
  | c :: t =>
      match t with
      | d :: _ => negb (is_hyphen c && is_hyphen d) && separated t
      | [] => true
      end
  | [] => true
  end.

(** Neighbouring runs are of different classes, so each run is maximal. *)
Fixpoint alternating (rs : list (list ascii)) : Prop :=
  match rs with
  | (c :: _) :: (((d :: _) :: _) as rest) =>
      lower_alnum c <> lower_alnum d /\ alternating rest
  | _ => True
  end.

Definition head_not_hyphen (s : list ascii) : Prop :=
  match s with c :: _ => is_hyphen c = false | [] => True end.

(** A well-formed slug: made of [a-z0-9-], no two hyphens in a row, no
    hyphen at either end. *)
Definition well_formed (s : list ascii) : Prop :=
  Forall (fun c => slug_char c = true) s
  /\ separated s = true
  /\ head_not_hyphen s
  /\ head_not_hyphen (rev s).

(** The name has a letter or digit of [a-z0-9] once lowercased. *)
Definition has_alnum (name : string) : Prop :=
  Exists (fun c => lower_alnum c = true) (toLowerCase (list_ascii_of_string name)).

End Slug.

(* ------------------------------------------------------------------------- *)
(** * Category (backend/src/models/Category.ts)                                *)
(* ------------------------------------------------------------------------- *)

Module Category.

(** [modified_name] is what [this.isModified('name')] answers. *)
Record CategoryDocument := mkCategory {
  name : string;
  modified_name : bool;
  slug : option string;
  isActive : bool;
  sortOrder : Q
}.

(** [categorySchema.pre('save')]. *)
Definition pre_save (c : CategoryDocument) : CategoryDocument :=
  if modified_name c && negb (truthy_opt_string (slug c))
  then mkCategory (name c) (modified_name c)
                  (Some (Slug.generate_slug (name c)))
                  (isActive c) (sortOrder c)
  else c.

(** ** Sample document *)

Definition running_shoes : CategoryDocument :=
  mkCategory "Men's Running Shoes!!" true None true 0.

(** Assigning [this.name = n] on a loaded category. *)
Definition rename (n : string) (c : CategoryDocument) : CategoryDocument :=
  mkCategory n true (slug c) (isActive c) (sortOrder c).

End Category.

(* ------------------------------------------------------------------------- *)
(** * Product (backend/src/models/Product.ts)                                  *)
(* ------------------------------------------------------------------------- *)

Module Product.

Record Discount := mkDiscount {
  type : option string;
  value : Q;
  startDate : option Date;
  endDate : option Date
}.

Record Ratings := mkRatings {
  average : Q;
  count : Q
}.

Record SeoData := mkSeoData {
  metaTitle : option string;
  metaDescription : option string;
  slug : option string
}.

Record ProductDocument := mkProduct {
  name : string;
  modified_name : bool;
  price : Q;
  stock : Q;
  ratings : Ratings;
  discount : option Discount;
  seoData : option SeoData
}.

Definition set_stock (s : Q) (p : ProductDocument) : ProductDocument :=
  mkProduct (name p) (modified_name p) (price p) s (ratings p) (discount p) (seoData p).

Definition set_ratings (r : Ratings) (p : ProductDocument) : ProductDocument :=
  mkProduct (name p) (modified_name p) (price p) (stock p) r (discount p) (seoData p).

Definition set_seoData (s : option SeoData) (p : ProductDocument) : ProductDocument :=
  mkProduct (name p) (modified_name p) (price p) (stock p) (ratings p) (discount p) s.

Definition set_modified_name (b : bool) (p : ProductDocument) : ProductDocument :=
  mkProduct (name p) b (price p) (stock p) (ratings p) (discount p) (seoData p).

(** [this.seoData?.slug]. *)
Definition seo_slug (p : ProductDocument) : option string :=
  match seoData p with Some s => slug s | None => None end.

(** [productSchema.pre('save')]. *)
Definition pre_save (p : ProductDocument) : ProductDocument :=
  if modified_name p && negb (truthy_opt_string (seo_slug p))
  then
    let seo := match seoData p with
               | Some s => s
               | None => mkSeoData None None None
               end in
    set_seoData
      (Some (mkSeoData (metaTitle seo) (metaDescription seo)
                       (Some (Slug.generate_slug (name p))))) p
  else p.

(** [this.save()], on its success path: the pre-save hook runs and the
    modification marks are cleared.  Validation of the remaining paths and
    the write itself are not modelled. *)
Definition save (p : ProductDocument) : ProductDocument :=
  set_modified_name false (pre_save p).

(** [calculateDiscountedPrice] in exact arithmetic, [now] being the value of
    [new Date()].  The values it computes are those of
    [Binary64.Product.calculateDiscountedPrice]; this reading serves the
    sign of the percentage branch. *)
Definition calculateDiscountedPrice (now : Date) (p : ProductDocument) : Q :=
  match discount p with
  | None => price p
  | Some d =>
      if match startDate d with Some s => (now <? s)%Z | None => false end
      then price p
      else if match endDate d with Some e => (e <? now)%Z | None => false end
      then price p
      else
        match type d with
        | Some ty =>
            if String.eqb ty "percentage"
            then price p * (1 - value d / 100)
            else if String.eqb ty "fixed"
            then Math_max 0 (price p - value d)
            else price p
        | None => price p
        end
  end.

Definition isInStock (p : ProductDocument) : bool := JS.gt (stock p) 0.

(** [reduceStock] in exact arithmetic: the document after the call, and how
    the promise settled.  The values it computes are those of
    [Binary64.Product.reduceStock]; this reading serves the properties of
    sign and order. *)
Definition reduceStock (quantity : Q) (p : ProductDocument)
  : ProductDocument * Result unit :=
  if JS.lt (stock p) quantity
  then (p, Err InsufficientStock)
  else (save (set_stock (stock p - quantity) p), Ok tt).

(** ** Vocabulary of the properties, and sample documents *)

Definition five_in_stock : ProductDocument :=
  mkProduct "Trail Shoe" false 100 5 (mkRatings 0 0) None None.

(** The current time lies in the discount's window, a missing bound being
    unbounded on its side. *)
Definition in_window (now : Date) (d : Discount) : Prop :=
  (forall s, startDate d = Some s -> (s <= now)%Z)
  /\ (forall e, endDate d = Some e -> (now <= e)%Z).

Definition product_with (d : Discount) : ProductDocument :=
  mkProduct "Trail Shoe" false 100 5 (mkRatings 0 0) (Some d) None.


(** ** Further methods and virtuals *)

(** Assigning [this.name = n] on a loaded product. *)
Definition rename (n : string) (p : ProductDocument) : ProductDocument :=
  mkProduct n true (price p) (stock p) (ratings p) (discount p) (seoData p).

End Product.

(* ------------------------------------------------------------------------- *)
(** * Order (backend/src/models/Order.ts)                                      *)
(* ------------------------------------------------------------------------- *)

Module Order.

Record OrderItem := mkItem {
  product : ObjectId;
  quantity : Q;
  price : Q
}.

Record OrderPricing := mkPricing {
  subtotal : Q;
  tax : Q;
  shipping : Q;
  discount : Q;
  total : Q
}.

(** What a property read on the [messages] object literal can deliver: one
    of its own strings, or a member it inherits from [Object.prototype]. *)
Inductive MessageValue :=
| Text (s : string)
| Inherited (member : string).

Record OrderTimeline := mkEntry {
  status : string;
  message : MessageValue;
  timestamp : Date;
  location : option string
}.

Record OrderDocument := mkOrder {
  isNew : bool;
  user : ObjectId;
  items : list OrderItem;
  orderStatus : string;
  timeline : list OrderTimeline;
  pricing : option OrderPricing;
  actualDelivery : option Date
}.

Definition set_isNew (b : bool) (o : OrderDocument) : OrderDocument :=
  mkOrder b (user o) (items o) (orderStatus o) (timeline o) (pricing o) (actualDelivery o).

Definition set_orderStatus (s : string) (o : OrderDocument) : OrderDocument :=
  mkOrder (isNew o) (user o) (items o) s (timeline o) (pricing o) (actualDelivery o).

Definition push_timeline (e : OrderTimeline) (o : OrderDocument) : OrderDocument :=
  mkOrder (isNew o) (user o) (items o) (orderStatus o) (timeline o ++ [e]) (pricing o)
          (actualDelivery o).

Definition set_actualDelivery (d : option Date) (o : OrderDocument) : OrderDocument :=
  mkOrder (isNew o) (user o) (items o) (orderStatus o) (timeline o) (pricing o) d.

(** The fields handed to [new Order({...})]; the schema supplies the
    defaults of the ones left out. *)
Record OrderFields := mkFields {
  f_user : ObjectId;
  f_items : list OrderItem;
  f_orderStatus : option string;
  f_timeline : option (list OrderTimeline);
  f_pricing : option OrderPricing
}.

Definition new_Order (f : OrderFields) : OrderDocument :=
  mkOrder true (f_user f) (f_items f)
          (match f_orderStatus f with Some s => s | None => "pending"%string end)
          (match f_timeline f with Some t => t | None => [] end)
          (f_pricing f) None.

(** [orderSchema.pre('save')], second hook (initial timeline entry).  The
    first hook only assigns [orderNumber], which nothing below reads. *)
Definition pre_save (now : Date) (o : OrderDocument) : OrderDocument :=
  if isNew o
  then push_timeline (mkEntry "pending" (Text "Order has been placed") now None) o
  else o.

(** [this.save()] on its success path. *)
Definition save (now : Date) (o : OrderDocument) : OrderDocument :=
  set_isNew false (pre_save now o).

(** Creating an order: [new Order(fields)] followed by its first [save]. *)
Definition create (now : Date) (f : OrderFields) : OrderDocument :=
  save now (new_Order f).

(** The object literal of [getStatusMessage]. *)
Definition messages : list (string * string) :=
  [ ("pending", "Order is pending confirmation");
    ("confirmed", "Order has been confirmed");
    ("processing", "Order is being processed");
    ("shipped", "Order has been shipped");
    ("delivered", "Order has been delivered");
    ("cancelled", "Order has been cancelled");
    ("refunded", "Order has been refunded") ]%string.

(** The members every object literal inherits from [Object.prototype]. *)
Definition Object_prototype_members : list string :=
  [ "constructor"; "__defineGetter__"; "__defineSetter__"; "hasOwnProperty";
    "__lookupGetter__"; "__lookupSetter__"; "isPrototypeOf";
    "propertyIsEnumerable"; "toString"; "valueOf"; "__proto__";
    "toLocaleString" ]%string.

Fixpoint own_property (key : string) (obj : list (string * string)) : option string :=
  match obj with
  | [] => None
  | (k, v) :: rest => if String.eqb key k then Some v else own_property key rest
  end.

(** [messages[status]]: own properties first, then the prototype. *)
Definition get_property (key : string) (obj : list (string * string))
  : option MessageValue :=
  match own_property key obj with
  | Some v => Some (Text v)
  | None =>
      if existsb (String.eqb key) Object_prototype_members
      then Some (Inherited key)
      else None
  end.

Definition truthy_value (v : option MessageValue) : bool :=
  match v with
  | Some (Text s) => truthy_string s
  | Some (Inherited _) => true
  | None => false
  end.

Definition getStatusMessage (status : string) : MessageValue :=
  match get_property status messages with
  | Some v => if truthy_value (Some v) then v else Text "Status updated"
  | None => Text "Status updated"
  end.

(** [updateStatus]; [t_entry] and [t_delivery] are the two [new Date()] of
    the body, [t_save] the one the save hook may take. *)
Definition updateStatus (t_entry t_delivery t_save : Date)
           (status : string) (message : option string) (o : OrderDocument)
  : OrderDocument :=
  let o1 := set_orderStatus status o in
  let timelineEntry :=
    mkEntry status
            (match message with
             | Some m => if truthy_string m then Text m else getStatusMessage status
             | None => getStatusMessage status
             end)
            t_entry None in
  let o2 := push_timeline timelineEntry o1 in
  let o3 :=
    if String.eqb status "delivered"
       && match actualDelivery o2 with Some _ => false | None => true end
    then set_actualDelivery (Some t_delivery) o2
    else o2 in
  save t_save o3.

Definition canBeCancelled (o : OrderDocument) : bool :=
  existsb (String.eqb (orderStatus o)) ["pending"; "confirmed"; "processing"]%string.

(** [canBeReturned], [now] being the value of [Date.now()]. *)
Definition canBeReturned (now : Z) (o : OrderDocument) : bool :=
  match actualDelivery o with
  | Some delivered =>
      if negb (String.eqb (orderStatus o) "delivered") then false
      else
        let returnWindow := (7 * 24 * 60 * 60 * 1000)%Z in
        let timeSinceDelivery := (now - delivered)%Z in
        (timeSinceDelivery <=? returnWindow)%Z
  | None => false
  end.

(** ** Vocabulary of the properties, and sample documents *)

(** A run of transitions, each with its clock readings. *)
Record Transition := mkTransition {
  t_entry : Date;
  t_delivery : Date;
  t_save : Date;
  new_status : string;
  supplied : option string
}.

Definition apply_transition (o : OrderDocument) (t : Transition) : OrderDocument :=
  updateStatus (t_entry t) (t_delivery t) (t_save t) (new_status t) (supplied t) o.

Definition apply_transitions (ts : list Transition) (o : OrderDocument) : OrderDocument :=
  fold_left apply_transition ts o.

Definition saved_order : OrderDocument :=
  mkOrder false 7 [mkItem 1 2 1500] "shipped"
          [mkEntry "pending" (Text "Order has been placed") 1000 None]
          (Some (mkPricing 3000 480 200 0 3680)) None.

Definition delivered_order : OrderDocument :=
  set_actualDelivery (Some 5000%Z) (set_orderStatus "delivered" saved_order).

Definition placed (now : Date) : OrderTimeline :=
  mkEntry "pending" (Text "Order has been placed") now None.

Definition plain_fields : OrderFields :=
  mkFields 7 [mkItem 1 2 1500] None None (Some (mkPricing 3000 480 200 0 3680)).

(** The fields of an order imported with the history it already has. *)
Definition fields_with_history : OrderFields :=
  mkFields 7 [mkItem 1 2 1500] (Some "shipped"%string)
           (Some [mkEntry "shipped" (Text "Imported") 500 None])
           (Some (mkPricing 3000 480 200 0 3680)).

(** ** Statistics and order numbers *)








(** [Number.prototype.toString()] on a non-negative integer: its decimal
    digits, most significant first. *)
Definition digit_char (d : Z) : ascii := ascii_of_N (48 + Z.to_N d).

Fixpoint decimal (fuel : nat) (n : Z) : list ascii :=
  match fuel with
  | O => []
  | S fuel' =>
      if (n <? 10)%Z then [digit_char n]
      else decimal fuel' (n / 10) ++ [digit_char (n mod 10)]
  end.

Definition Number_toString (n : Z) : list ascii :=
  decimal (S (Z.to_nat (Z.log2 n))) n.

(** [s.slice(-k)] and [s.substring(from, to)] (for [from <= to]). *)
Definition slice_last (k : nat) (s : list ascii) : list ascii :=
  skipn (length s - k) s.

Definition substring (from to : nat) (s : list ascii) : list ascii :=
  firstn (to - from) (skipn from s).

(** [toUpperCase] on the characters of a base-36 numeral ([0-9a-z.]). *)
Definition toUpperCase_char (c : ascii) : ascii :=
  if Slug.in_range 97 122 c then ascii_of_N (Slug.code c - 32) else c.

(** [generateOrderNumber] (Order.ts 178-182): [now] is the value of
    [Date.now()], [random36] that of [Math.random().toString(36)]. *)
Definition generateOrderNumber (now : Z) (random36 : string) : string :=
  let timestamp := Number_toString now in
  let random := map toUpperCase_char (substring 2 8 (list_ascii_of_string random36)) in
  string_of_list_ascii
    (list_ascii_of_string "ORD-" ++ slice_last 8 timestamp ++ "-"%char :: random).

(** The last [k] decimal digits of [n], leading zeros included. *)
Fixpoint last_digits (k : nat) (n : Z) : list ascii :=
  match k with
  | O => []
  | S k' => last_digits k' (n / 10) ++ [digit_char (n mod 10)]
  end.

(** Sample transitions. *)
Definition to_shipped : Transition := mkTransition 2000 2001 2002 "shipped" None.
Definition to_delivered : Transition := mkTransition 3000 3001 3002 "delivered" None.
Definition to_refunded : Transition :=
  mkTransition 4000 4001 4002 "refunded" (Some "Refund issued"%string).
Definition to_delivered_again : Transition :=
  mkTransition 900000000 900000001 900000002 "delivered" None.



End Order.

(* ------------------------------------------------------------------------- *)
(** * Review (the review model) and the collections its hooks work on          *)
(* ------------------------------------------------------------------------- *)

Module Review.

(** The paths of a review that some method or hook reads.  [title], [comment]
    and [images] are only validated and stored. *)
Record ReviewDocument := mkReview {
  _id : ObjectId;
  isNew : bool;
  user : ObjectId;
  product : ObjectId;
  rating : Q;
  helpful : Q;
  helpfulBy : list ObjectId;
  verified : bool;
  isApproved : bool
}.

Definition set_isNew (b : bool) (r : ReviewDocument) : ReviewDocument :=
  mkReview (_id r) b (user r) (product r) (rating r) (helpful r) (helpfulBy r)
           (verified r) (isApproved r).

Definition set_verified (b : bool) (r : ReviewDocument) : ReviewDocument :=
  mkReview (_id r) (isNew r) (user r) (product r) (rating r) (helpful r) (helpfulBy r)
           b (isApproved r).

Definition set_helpful (h : Q) (by_ : list ObjectId) (r : ReviewDocument) : ReviewDocument :=
  mkReview (_id r) (isNew r) (user r) (product r) (rating r) h by_
           (verified r) (isApproved r).

(** The collections: reviews and orders in insertion order, products by
    [_id]; of users and user interactions only the owning user ids. *)
Record Database := mkDB {
  reviews : list ReviewDocument;
  products : gmap ObjectId Product.ProductDocument;
  orders : list Order.OrderDocument;
  users : list ObjectId;
  interactions : list ObjectId
}.

Definition set_reviews (rs : list ReviewDocument) (db : Database) : Database :=
  mkDB rs (products db) (orders db) (users db) (interactions db).

Definition set_products (ps : gmap ObjectId Product.ProductDocument) (db : Database)
  : Database :=
  mkDB (reviews db) ps (orders db) (users db) (interactions db).

(** [new mongoose.Types.ObjectId(s)] on a string: 24 hexadecimal digits, or
    the constructor throws. *)
Definition hex_digit (c : ascii) : option N :=
  let n := N_of_ascii c in
  if ((48 <=? n) && (n <=? 57))%N then Some (n - 48)%N
  else if ((97 <=? n) && (n <=? 102))%N then Some (n - 87)%N
  else if ((65 <=? n) && (n <=? 70))%N then Some (n - 55)%N
  else None.

Fixpoint parse_hex (acc : N) (s : string) : option N :=
  match s with
  | EmptyString => Some acc
  | String c t =>
      match hex_digit c with
      | Some d => parse_hex (16 * acc + d)%N t
      | None => None
      end
  end.

Definition new_ObjectId (s : string) : option ObjectId :=
  if (String.length s =? 24)%nat then parse_hex 0%N s else None.

(** [isVerifiedPurchase]: [Order.findOne] with the three conditions. *)
Definition isVerifiedPurchase (r : ReviewDocument) (db : Database) : bool :=
  existsb
    (fun o =>
       (Order.user o =? user r)%N
       && existsb (fun i => (Order.product i =? product r)%N) (Order.items o)
       && String.eqb (Order.orderStatus o) "delivered")
    (orders db).

(** [find({ product: id, isApproved: true })]. *)
Definition find_approved (id : ObjectId) (db : Database) : list ReviewDocument :=
  List.filter (fun r => (product r =? id)%N && isApproved r) (reviews db).

(** The body shared by [post('save')] and [post('deleteOne')], run for the
    review [this]. *)
Definition update_product_rating (this : ReviewDocument) (db : Database) : Database :=
  match products db !! product this with
  | Some found =>
      let product := Product.set_modified_name false found in
      let reviews := find_approved (Review.product this) db in
      let totalRating := fold_left (fun sum review => sum + rating review) reviews 0 in
      let averageRating :=
        if JS.gt (length_number reviews) 0
        then totalRating / length_number reviews
        else 0 in
      let product' :=
        Product.set_ratings
          (Product.mkRatings (inject_Z (Math_round (averageRating * 10)) / 10)
                             (length_number reviews))
          product in
      set_products (<[Review.product this := Product.save product']> (products db)) db
  | None => db
  end.

Definition post_save := update_product_rating.
Definition post_deleteOne := update_product_rating.

(** Schema validation of the rating path ([min: 1], [max: 5]). *)
Definition validate (r : ReviewDocument) : bool :=
  Qle_bool 1 (rating r) && Qle_bool (rating r) 5.

(** The unique compound index on (user, product). *)
Definition same_pair (a b : ReviewDocument) : bool :=
  (user a =? user b)%N && (product a =? product b)%N.

(** Modelled from the spec: the storage engine's enforcement of the unique
    indexes, of which the source has only the declaration (part_001 145,
    [{ user: 1, product: 1 }, { unique: true }]): "Review creation for a
    (user, product) pair that already has a review fails with a uniqueness
    conflict".  The write of [save] is an insert for a new document and
    otherwise an update of the stored document with the same [_id]; it is
    refused when another stored review has the same [_id] or the same
    (user, product) pair. *)
Definition write (r : ReviewDocument) (db : Database) : Result Database :=
  let stored := set_isNew false r in
  if isNew r then
    if existsb (fun s => (_id s =? _id r)%N || same_pair s r) (reviews db)
    then Err DuplicateKey
    else Ok (set_reviews (reviews db ++ [stored]) db)
  else if negb (existsb (fun s => (_id s =? _id r)%N) (reviews db))
  then Err DocumentNotFound
  else if existsb (fun s => negb (_id s =? _id r)%N && same_pair s r) (reviews db)
  then Err DuplicateKey
  else Ok (set_reviews
             (map (fun s => if (_id s =? _id r)%N then stored else s) (reviews db)) db).

(** [this.save()]: validation, [pre('save')], the write, [post('save')].
    Returns the in-memory document and how the promise settled. *)
Definition save (r : ReviewDocument) (db : Database)
  : ReviewDocument * Result Database :=
  if negb (validate r) then (r, Err ValidationError)
  else
    let r1 := if isNew r then set_verified (isVerifiedPurchase r db) r else r in
    match write r1 db with
    | Err e => (r1, Err e)
    | Ok db1 =>
        let r2 := set_isNew false r1 in
        (r2, Ok (post_save r2 db1))
    end.

(** [this.deleteOne()] on a document. *)
Definition deleteOne (r : ReviewDocument) (db : Database) : Database :=
  let db1 := set_reviews (List.filter (fun s => negb (_id s =? _id r)%N) (reviews db)) db in
  post_deleteOne r db1.

(** [helpfulBy.includes(id)] on a Mongoose array compares ids by value. *)
Definition includes (id : ObjectId) (l : list ObjectId) : bool :=
  existsb (N.eqb id) l.

Definition markAsHelpful (userId : string) (r : ReviewDocument) (db : Database)
  : ReviewDocument * Result Database :=
  match new_ObjectId userId with
  | None => (r, Err BSONError)
  | Some userObjectId =>
      if negb (includes userObjectId (helpfulBy r))
      then save (set_helpful (helpful r + 1) (helpfulBy r ++ [userObjectId]) r) db
      else (r, Ok db)
  end.

(** ** Vocabulary of the properties, and sample documents *)

Definition carol_id : string := "64b7f0a2c3d4e5f60718293a".

Definition fresh_review : ReviewDocument :=
  mkReview 100 false 10 1 4 0 [] false true.

Definition no_collections : Database := mkDB [] ∅ [] [] [].

(** The product [id] carries the aggregate (average, count). *)
Definition has_rating (db : Database) (id : ObjectId) (avg cnt : Q) : Prop :=
  exists p, products db !! id = Some p
            /\ Product.average (Product.ratings p) == avg
            /\ Product.count (Product.ratings p) == cnt.

(** The sum of the ratings of a list of reviews. *)
Fixpoint ratings_sum (rs : list ReviewDocument) : Q :=
  match rs with
  | [] => 0
  | r :: rest => rating r + ratings_sum rest
  end.

(** [y] is [x] rounded to one decimal place: a whole number of tenths, at
    most half a tenth away from [x], the upper one when two are as near. *)
Definition nearest_tenth (x y : Q) : Prop :=
  (exists k : Z, y == inject_Z k / 10)
  /\ x - (1 # 20) < y /\ y <= x + (1 # 20).

(** [agg] is the aggregate recomputed from scratch over the reviews [rs] for
    the product [id]: the count of its approved reviews, and the mean of
    their ratings rounded to one decimal place (0 without any). *)
Definition recomputed (id : ObjectId) (rs : list ReviewDocument) (agg : Product.Ratings)
  : Prop :=
  let approved := List.filter (fun r => (product r =? id)%N && isApproved r) rs in
  Product.count agg == inject_Z (Z.of_nat (length approved))
  /\ (approved = [] -> Product.average agg == 0)
  /\ (approved <> [] ->
      nearest_tenth (ratings_sum approved / inject_Z (Z.of_nat (length approved)))
                    (Product.average agg)).

(** The scenario of the specification: one product, two users, each
    reviewing it once (4 and 2 stars, both approved). *)
Definition shoe_id : ObjectId := 1.
Definition alice : ObjectId := 10.
Definition bob : ObjectId := 11.

Definition shoe : Product.ProductDocument :=
  Product.mkProduct "Trail Shoe" false 100 5 (Product.mkRatings 0 0) None
                    (Some (Product.mkSeoData None None (Some "trail-shoe"%string))).

Definition review_of (id author : ObjectId) (stars : Q) : ReviewDocument :=
  mkReview id true author shoe_id stars 0 [] false true.

Definition shop : Database := mkDB [] {[ shoe_id := shoe ]} [] [alice; bob] [].

(** The database once a save has settled (unchanged if it was rejected). *)
Definition saved (r : ReviewDocument) (db : Database) : Database :=
  match snd (save r db) with Ok db' => db' | Err _ => db end.

Definition two_reviews : Database :=
  saved (review_of 101 bob 2) (saved (review_of 100 alice 4) shop).

(** ** Further vocabulary *)

(** The voters are distinct and the helpful count is their number. *)
Definition votes_consistent (r : ReviewDocument) : Prop :=
  List.NoDup (helpfulBy r) /\ helpful r == length_number (helpfulBy r).

(** Two products that differ at most in the rating aggregate and the
    modification mark. *)
Definition same_but_rating (p p' : Product.ProductDocument) : Prop :=
  Product.name p' = Product.name p
  /\ Product.price p' = Product.price p
  /\ Product.stock p' = Product.stock p
  /\ Product.discount p' = Product.discount p
  /\ Product.seoData p' = Product.seoData p.

(** Every stored review carries a rating the schema accepts. *)
Definition ratings_valid (db : Database) : Prop :=
  forall s, In s (reviews db) -> 1 <= rating s /\ rating s <= 5.

(** ** Review statistics *)

(** One result of the aggregation: [{ _id: rating, count }]. *)
Record RatingStat := mkStat {
  stat_id : Q;
  stat_count : Q
}.

(** [$group: { _id: '$rating', count: { $sum: 1 } }] taking in one more
    review. *)
Fixpoint group_rating (r : ReviewDocument) (groups : list RatingStat) : list RatingStat :=
  match groups with
  | [] => [mkStat (rating r) 1]
  | g :: rest =>
      if Qeq_bool (stat_id g) (rating r)
      then mkStat (stat_id g) (stat_count g + 1) :: rest
      else g :: group_rating r rest
  end.

(** [$sort: { _id: -1 }], by insertion. *)
Fixpoint insert_stat (g : RatingStat) (sorted : list RatingStat) : list RatingStat :=
  match sorted with
  | [] => [g]
  | h :: rest =>
      if Qle_bool (stat_id h) (stat_id g)
      then g :: h :: rest
      else h :: insert_stat g rest
  end.

Definition sort_stats (groups : list RatingStat) : list RatingStat :=
  fold_right insert_stat [] groups.

(** The pipeline [$match], [$group], [$sort] over the reviews collection. *)
Definition aggregate (productId : ObjectId) (db : Database) : list RatingStat :=
  sort_stats
    (fold_left (fun groups r => group_rating r groups) (find_approved productId db) []).

(** An object keyed by numbers ([Record<number, number>]): its own
    properties.  [obj[key] = value] overwrites the property or adds it. *)
Definition Distribution := list (Q * Q).

Fixpoint set_entry (key value : Q) (obj : Distribution) : Distribution :=
  match obj with
  | [] => [(key, value)]
  | (k, v) :: rest =>
      if Qeq_bool k key then (k, value) :: rest else (k, v) :: set_entry key value rest
  end.

Fixpoint get_entry (key : Q) (obj : Distribution) : option Q :=
  match obj with
  | [] => None
  | (k, v) :: rest => if Qeq_bool k key then Some v else get_entry key rest
  end.

Record ReviewStats := mkStats {
  totalReviews : Q;
  ratingDistribution : Distribution;
  percentageDistribution : Distribution
}.

(** [Math.round((count / totalReviews) * 100)], computed on doubles as the
    code does; the counts are whole numbers. *)
Definition percentage (count totalReviews : Q) : Q :=
  inject_Z
    (Binary64.Math_round
       (Binary64.of_Z (Qfloor count) / Binary64.of_Z (Qfloor totalReviews) * 100)%float).

Definition getProductReviewStats (productId : string) (db : Database)
  : Result ReviewStats :=
  match new_ObjectId productId with
  | None => Err BSONError
  | Some id =>
      let stats := aggregate id db in
      let totalReviews := fold_left (fun sum stat => sum + stat_count stat) stats 0 in
      let ratingDistribution :=
        fold_left (fun obj stat => set_entry (stat_id stat) (stat_count stat) obj)
                  stats [(1, 0); (2, 0); (3, 0); (4, 0); (5, 0)] in
      Ok (mkStats
            totalReviews
            ratingDistribution
            (fold_left
               (fun acc '(rating, count) =>
                  set_entry rating
                            (if JS.gt totalReviews 0
                             then percentage count totalReviews
                             else 0)
                            acc)
               ratingDistribution []))
  end.

(** The reviews of a list that carry the rating [k]. *)
Definition with_rating (k : Q) (rs : list ReviewDocument) : list ReviewDocument :=
  List.filter (fun r => Qeq_bool (rating r) k) rs.

(** What the groups with the key [k] count together. *)
Fixpoint count_in (k : Q) (groups : list RatingStat) : Q :=
  match groups with
  | [] => 0
  | g :: rest => (if Qeq_bool (stat_id g) k then stat_count g else 0) + count_in k rest
  end.

Definition shoe_key : string := "000000000000000000000001".

(** The keys the distribution always has. *)
Definition star (k : Q) : Prop := InA Qeq k [1; 2; 3; 4; 5].

(** The sum of the counts of a list of groups; the keys of an object. *)
Fixpoint stat_counts_sum (gs : list RatingStat) : Q :=
  match gs with
  | [] => 0
  | g :: rest => stat_count g + stat_counts_sum rest
  end.


(** An aggregate the product schema accepts: no review and average 0, or at
    least one and an average between 1 and 5. *)
Definition acceptable (agg : Product.Ratings) : Prop :=
  (Product.count agg == 0 /\ Product.average agg == 0)
  \/ (1 <= Product.count agg /\ 1 <= Product.average agg /\ Product.average agg <= 5).

End Review.

(* ------------------------------------------------------------------------- *)
(** * User (backend/src/models/User.ts): the cascade of [deleteOne]            *)
(* ------------------------------------------------------------------------- *)

Module User.

Import Review Regex.

(** [userSchema.pre('deleteOne')]: three [deleteMany] queries. *)
Definition pre_deleteOne (this : ObjectId) (db : Database) : Database :=
  mkDB (List.filter (fun r => negb (Review.user r =? this)%N) (reviews db))
       (products db)
       (List.filter (fun o => negb (Order.user o =? this)%N) (orders db))
       (users db)
       (List.filter (fun i => negb (i =? this)%N) (interactions db)).

(** [user.deleteOne()]. *)
Definition deleteOne (this : ObjectId) (db : Database) : Database :=
  let db1 := pre_deleteOne this db in
  mkDB (reviews db1) (products db1) (orders db1)
       (List.filter (fun u => negb (u =? this)%N) (users db1))
       (interactions db1).

(** ** The [match] validators of [phone] and [email] *)

(** [/^(\+254|254|0)[17]\d{8}$/] *)
Definition phone_pattern : regex :=
  Seq (Alt (Lit (list_ascii_of_string "+254"))
           (Alt (Lit (list_ascii_of_string "254")) (Lit (list_ascii_of_string "0"))))
      (Seq (Class (fun c => Ascii.eqb c "1" || Ascii.eqb c "7"))
           (Repeat 8 (Class digit))).

(** The class [[.-]]. *)
Definition separator (c : ascii) : bool := Ascii.eqb c "." || Ascii.eqb c "-".

(** [\w+([.-]?\w+)*] *)
Definition labels_pattern : regex :=
  Seq (Plus (Class word)) (Star (Seq (Opt (Class separator)) (Plus (Class word)))).

(** [/^\w+([.-]?\w+)*@\w+([.-]?\w+)*(\.\w{2,3})+$/] *)
Definition email_pattern : regex :=
  Seq labels_pattern
      (Seq (Chr "@")
           (Seq labels_pattern
                (Plus (Seq (Chr ".") (Seq (Repeat 2 (Class word)) (AtMost 1 (Class word))))))).

(** Word characters with single separators between them, none at either
    end; [after_word] tells that the character before is a word character. *)
Fixpoint labels_from (after_word : bool) (s : list ascii) : bool :=
  match s with
  | [] => after_word
  | c :: t =>
      if word c then labels_from true t
      else if separator c && after_word then labels_from false t
      else false
  end.

Definition labels (s : list ascii) : bool := labels_from false s.

End User.

(* ------------------------------------------------------------------------- *)
(** * Properties of slug derivation                                            *)
(* ------------------------------------------------------------------------- *)

Module SlugProps.

Import Slug.

Ltac by_cases_on_char c :=
  destruct c as [[] [] [] [] [] [] [] []]; vm_compute; congruence.

Lemma lower_alnum_not_hyphen c : lower_alnum c = true -> is_hyphen c = false.
Proof. by_cases_on_char c. Qed.

Lemma slug_char_lower c : slug_char c = true -> toLowerCase_char c = c.
Proof. by_cases_on_char c. Qed.

Lemma slug_char_not_space c : slug_char c = true -> is_space c = false.
Proof. by_cases_on_char c. Qed.

(** ** [runs] is the decomposition into maximal runs *)

Lemma runs_nonempty s : Forall (fun r => r <> []) (runs s).
Proof.
  induction s as [|c t IH]; simpl; [constructor|].
  destruct (runs t) as [|[|d r] rest]; simpl.
  - repeat constructor; discriminate.
  - repeat constructor; discriminate.
  - inversion IH; subst.
    destruct (Bool.eqb _ _); repeat constructor; try discriminate; assumption.
Qed.

Lemma runs_concat s : concat (runs s) = s.
Proof.
  induction s as [|c t IH]; simpl; [reflexivity|].
  pose proof (runs_nonempty t) as NE.
  destruct (runs t) as [|[|d r] rest]; simpl in *.
  - now subst t.
  - inversion NE; congruence.
  - destruct (Bool.eqb _ _); simpl; now rewrite <- IH.
Qed.

Lemma runs_uniform s :
  Forall (fun r => forall c d, In c r -> In d r -> lower_alnum c = lower_alnum d) (runs s).
Proof.
  induction s as [|c t IH]; simpl; [constructor|].
  destruct (runs t) as [|[|d r] rest]; simpl.
  - repeat constructor. intros x y [<-|[]] [<-|[]]; reflexivity.
  - repeat constructor. intros x y [<-|[]] [<-|[]]; reflexivity.
  - inversion IH as [|? ? Hd Hrest]; subst.
    destruct (Bool.eqb (lower_alnum c) (lower_alnum d)) eqn:E.
    + apply eqb_prop in E. constructor; [|assumption].
      assert (K : forall x, In x (c :: d :: r) -> lower_alnum x = lower_alnum d).
      { intros x [<-|Hx]; [assumption|]. apply Hd; [assumption|now left]. }
      intros x y Hx Hy. now rewrite (K x Hx), (K y Hy).
    + constructor; [|constructor; assumption].
      intros x y [<-|[]] [<-|[]]; reflexivity.
Qed.

Lemma runs_alternating s : alternating (runs s).
Proof.
  induction s as [|c t IH]; simpl; [exact I|].
  destruct (runs t) as [|[|d r] rest] eqn:E; simpl; try exact I.
  destruct (Bool.eqb (lower_alnum c) (lower_alnum d)) eqn:B.
  - apply eqb_prop in B. simpl in IH.
    destruct rest as [|[|e r'] rest']; simpl; try exact I.
    rewrite B. exact IH.
  - apply eqb_false_iff in B. simpl. split; assumption.
Qed.

(** ** The scan agrees with the run-by-run reading *)

Lemma replace_runs_collapse s :
  replace_runs false s = spec_collapse s
  /\ replace_runs true s =
       match runs s with
       | (d :: r) :: rest =>
           if lower_alnum d then spec_collapse s else concat (map render_run rest)
       | _ => []
       end.
Proof.
  unfold spec_collapse.
  induction s as [|c t [IHf IHt]]; [split; reflexivity|].
  pose proof (runs_nonempty t) as NE. pose proof (runs_concat t) as C.
  cbn [replace_runs runs]. rewrite IHf, IHt. clear IHf IHt.
  destruct (runs t) as [|[|d r] rest].
  - subst t. simpl. destruct (lower_alnum c); split; reflexivity.
  - inversion NE; congruence.
  - destruct (lower_alnum c) eqn:Ec, (lower_alnum d) eqn:Ed; simpl;
      rewrite ?Ec, ?Ed; simpl; split; reflexivity.
Qed.

Lemma replace_runs_spec s : replace_runs false s = spec_collapse s.
Proof. apply replace_runs_collapse. Qed.

(** The scan is the regular expression's leftmost-longest replacement: where
    a character outside [a-z0-9] starts a match, the match runs as far as
    such characters go and is replaced by one hyphen. *)
Lemma replace_runs_greedy c t :
  lower_alnum c = false ->
  replace_runs false (c :: t)
  = hyphen :: replace_runs false (drop_while (fun x => negb (lower_alnum x)) t).
Proof.
  intros Hc. simpl. rewrite Hc. f_equal.
  induction t as [|d u IH]; simpl; [reflexivity|].
  destruct (lower_alnum d) eqn:Ed; simpl; [now rewrite Ed|exact IH].
Qed.

(** ** Shape of the scan's output *)

Lemma replace_runs_shape s :
  forall b,
    Forall (fun c => slug_char c = true) (replace_runs b s)
    /\ separated (replace_runs b s) = true
    /\ (b = true -> head_not_hyphen (replace_runs b s)).
Proof.
  induction s as [|c t IH]; intros b; simpl; [repeat split; constructor|].
  destruct (IH false) as (F0 & S0 & _), (IH true) as (F1 & S1 & H1).
  specialize (H1 eq_refl).
  destruct (lower_alnum c) eqn:Ec.
  - pose proof (lower_alnum_not_hyphen c Ec) as Hc.
    repeat split.
    + constructor; [unfold slug_char; now rewrite Ec|assumption].
    + simpl. destruct (replace_runs false t); [reflexivity|].
      rewrite Hc. simpl. exact S0.
    + intros _. exact Hc.
  - destruct b.
    + repeat split; auto.
    + repeat split.
      * constructor; [reflexivity|assumption].
      * simpl. destruct (replace_runs true t) as [|d u]; [reflexivity|].
        simpl in H1. rewrite H1. simpl. exact S1.
      * discriminate.
Qed.

(** ** One hyphen at each end is all there is to strip *)

Lemma drop_while_head p s :
  match s with c :: _ => p c = false | [] => True end -> drop_while p s = s.
Proof. destruct s as [|c t]; simpl; [reflexivity|]. now intros ->. Qed.

Lemma drop_while_none p s : Forall (fun c => p c = false) s -> drop_while p s = s.
Proof. intros F. apply drop_while_head. destruct F; auto. Qed.

Lemma separated_tail c t : separated (c :: t) = true -> separated t = true.
Proof.
  simpl. destruct t as [|d u]; [reflexivity|].
  intros H. apply andb_prop in H. apply H.
Qed.

Lemma strip_first_spec s :
  separated s = true -> strip_first s = drop_while is_hyphen s.
Proof.
  destruct s as [|c t]; simpl; [reflexivity|].
  destruct (is_hyphen c) eqn:Ec; [|reflexivity].
  destruct t as [|d u]; [reflexivity|].
  rewrite andb_true_iff, negb_true_iff. simpl. intros [H _].
  now rewrite H.
Qed.

Lemma strip_last_snoc l c :
  strip_last (l ++ [c]) = if is_hyphen c then l else l ++ [c].
Proof.
  induction l as [|a l IH]; simpl; [destruct (is_hyphen c); reflexivity|].
  rewrite IH. destruct (l ++ [c]) eqn:E.
  - destruct l; discriminate.
  - destruct (is_hyphen c); reflexivity.
Qed.

Lemma separated_snoc l c d :
  separated (l ++ [c; d]) = true -> is_hyphen d = true -> is_hyphen c = false.
Proof.
  induction l as [|a l IH]; simpl.
  - intros H Hd. rewrite Hd in H. destruct (is_hyphen c); [discriminate H|reflexivity].
  - destruct (l ++ [c; d]) eqn:E; [destruct l; discriminate|].
    rewrite andb_true_iff. intros [_ H]. now apply IH.
Qed.

Lemma strip_last_spec s :
  separated s = true -> strip_last s = rev (drop_while is_hyphen (rev s)).
Proof.
  destruct s as [|d l] using rev_ind; [reflexivity|]. clear IHl.
  intros S. rewrite strip_last_snoc, rev_app_distr. simpl.
  destruct (is_hyphen d) eqn:Ed.
  - rewrite drop_while_head; [now rewrite rev_involutive|].
    destruct l as [|c l'] using rev_ind; [exact I|]. clear IHl'.
    rewrite rev_app_distr. simpl.
    rewrite <- app_assoc in S. simpl in S. eapply separated_snoc; eassumption.
  - simpl. now rewrite rev_involutive.
Qed.

Lemma strip_edges_spec s : separated s = true -> strip_edges s = spec_strip s.
Proof.
  intros S. unfold strip_edges, spec_strip.
  rewrite <- (strip_first_spec s) by assumption.
  apply strip_last_spec.
  destruct s as [|c t]; [reflexivity|]. unfold strip_first.
  destruct (is_hyphen c); [now apply separated_tail in S|exact S].
Qed.

(** ** The schema setters leave a derived slug alone *)

Lemma strip_first_Forall (P : ascii -> Prop) s : Forall P s -> Forall P (strip_first s).
Proof.
  destruct 1 as [|c t Hc Ht]; simpl; [constructor|].
  destruct (is_hyphen c); [assumption|now constructor].
Qed.

Lemma strip_last_Forall (P : ascii -> Prop) s : Forall P s -> Forall P (strip_last s).
Proof.
  induction 1 as [|c t Hc Ht IH]; simpl; [constructor|].
  destruct t as [|d u]; [destruct (is_hyphen c); repeat constructor; assumption|].
  constructor; assumption.
Qed.

Lemma slugify_chars name : Forall (fun c => slug_char c = true) (slugify name).
Proof.
  unfold slugify, strip_edges.
  apply strip_last_Forall, strip_first_Forall, replace_runs_shape.
Qed.

Lemma toLowerCase_slug s :
  Forall (fun c => slug_char c = true) s -> toLowerCase s = s.
Proof.
  induction 1 as [|c t Hc Ht IH]; simpl; [reflexivity|].
  now rewrite slug_char_lower, IH.
Qed.

Lemma trim_slug s : Forall (fun c => slug_char c = true) s -> trim s = s.
Proof.
  intros F. unfold trim.
  assert (G : Forall (fun c => is_space c = false) s).
  { eapply Forall_impl; [exact F|]. apply slug_char_not_space. }
  rewrite (drop_while_none _ _ G).
  rewrite drop_while_none; [apply rev_involutive|].
  now apply List.Forall_rev.
Qed.

Lemma slug_setter_slugify name :
  slug_setter (string_of_list_ascii (slugify name)) = string_of_list_ascii (slugify name).
Proof.
  unfold slug_setter. rewrite list_ascii_of_string_of_list_ascii.
  rewrite toLowerCase_slug by apply slugify_chars.
  now rewrite trim_slug by apply slugify_chars.
Qed.

(** ** The derived slug is the one the specification describes *)

Lemma generate_slug_spec name : generate_slug name = spec_slug name.
Proof.
  unfold generate_slug, spec_slug. rewrite slug_setter_slugify.
  unfold slugify. f_equal.
  rewrite strip_edges_spec by apply replace_runs_shape.
  now rewrite replace_runs_spec.
Qed.

(** C9. When a pre-save hook derives the slug (the name is modified and
    there is no slug yet), the slug is the name lowercased, every maximal run
    of characters outside [a-z0-9] replaced by one hyphen, leading and
    trailing hyphens stripped; "Men's Running Shoes!!" gives
    "men-s-running-shoes".  Category and Product derive it alike. *)
Theorem derived_slug_spec :
  (forall c,
      Category.modified_name c = true ->
      Category.slug c = None \/ Category.slug c = Some ""%string ->
      Category.slug (Category.pre_save c) = Some (spec_slug (Category.name c)))
  /\ (forall p,
         Product.modified_name p = true ->
         Product.seo_slug p = None \/ Product.seo_slug p = Some ""%string ->
         Product.seo_slug (Product.pre_save p) = Some (spec_slug (Product.name p)))
  /\ spec_slug "Men's Running Shoes!!" = "men-s-running-shoes"%string.
Proof.
  split; [|split].
  - intros c Hm Hs. unfold Category.pre_save. rewrite Hm.
    destruct Hs as [-> | ->]; simpl; now rewrite generate_slug_spec.
  - intros p Hm Hs. unfold Product.pre_save. rewrite Hm.
    destruct Hs as [-> | ->]; simpl; unfold Product.seo_slug; simpl;
      now rewrite generate_slug_spec.
  - reflexivity.
Qed.

Lemma derived_slug_spec_witness :
  Category.slug (Category.pre_save Category.running_shoes)
  = Some "men-s-running-shoes"%string.
Proof.
  exact (proj1 derived_slug_spec Category.running_shoes eq_refl (or_introl eq_refl)).
Defined.

End SlugProps.

Module OrderProps.

Import Order.

Lemma gt_true a b : JS.gt a b = true <-> b < a.
Proof.
  unfold JS.gt, JS.lt. rewrite negb_true_iff.
  split.
  - intros H. apply Qnot_le_lt. intros L. apply Qle_bool_iff in L. congruence.
  - intros H. destruct (Qle_bool a b) eqn:E; [|reflexivity].
    apply Qle_bool_iff in E. exfalso. eapply Qlt_not_le; eassumption.
Qed.


(** ** Status transitions *)

Lemma save_fields now o :
  orderStatus (save now o) = orderStatus o
  /\ actualDelivery (save now o) = actualDelivery o
  /\ isNew (save now o) = false
  /\ timeline (save now o) =
       timeline o ++ (if isNew o
                      then [mkEntry "pending" (Text "Order has been placed") now None]
                      else []).
Proof.
  unfold save, pre_save. destruct (isNew o) eqn:E; simpl; repeat split; auto.
  now rewrite app_nil_r.
Qed.

Lemma updateStatus_actualDelivery te td ts status msg o :
  actualDelivery (updateStatus te td ts status msg o) =
  match actualDelivery o with
  | Some d => Some d
  | None => if String.eqb status "delivered" then Some td else None
  end.
Proof.
  unfold updateStatus. cbv zeta.
  match goal with |- actualDelivery (save _ ?x) = _ =>
    destruct (save_fields ts x) as (_ & -> & _) end.
  simpl. destruct (actualDelivery o) eqn:E, (String.eqb status "delivered");
    simpl; rewrite ?E; reflexivity.
Qed.

Lemma delivery_stamp_kept ts o d :
  actualDelivery o = Some d -> actualDelivery (apply_transitions ts o) = Some d.
Proof.
  revert o. induction ts as [|t ts IH]; intros o H; simpl; [exact H|].
  apply IH. unfold apply_transition. rewrite updateStatus_actualDelivery. now rewrite H.
Qed.

Lemma own_message status msg :
  In (status, msg) messages -> getStatusMessage status = Text msg.
Proof.
  unfold messages. simpl.
  intros H. repeat (destruct H as [H|H]; [inversion H; subst; reflexivity|]).
  destruct H.
Qed.

Lemma own_property_none key obj :
  ~ In key (map fst obj) -> own_property key obj = None.
Proof.
  induction obj as [|[k v] rest IH]; simpl; [reflexivity|].
  intros H. destruct (String.eqb key k) eqn:E.
  - apply String.eqb_eq in E. exfalso. apply H. now left.
  - apply IH. intros K. apply H. now right.
Qed.

Lemma fallback_message status :
  ~ In status (map fst messages) ->
  ~ In status Object_prototype_members ->
  getStatusMessage status = Text "Status updated".
Proof.
  intros H1 H2. unfold getStatusMessage, get_property.
  rewrite own_property_none by assumption.
  destruct (existsb (String.eqb status) Object_prototype_members) eqn:E; [|reflexivity].
  apply List.existsb_exists in E. destruct E as (m & Hm & E).
  apply String.eqb_eq in E. now subst m.
Qed.

(** C4, as amended.  On an order that has been saved before, a transition
    sets the status, appends exactly one timeline entry carrying the new
    status, whose message is the supplied message when that is a non-empty
    string and otherwise the canned message: the table's for its seven
    statuses, "Status updated" for any other status that does not name a
    member inherited from Object.prototype.  A transition to delivered stamps
    the actual delivery when none is set, and no run of later transitions
    changes a stamp that is set. *)
Theorem updateStatus_spec
        (te td ts : Date) (status : string) (message : option string) (o : OrderDocument) :
  isNew o = false ->
  let o' := updateStatus te td ts status message o in
  orderStatus o' = status
  /\ (exists e, timeline o' = timeline o ++ [e]
                /\ Order.status e = status
                /\ (forall m, message = Some m -> m <> ""%string -> Order.message e = Text m)
                /\ (message = None \/ message = Some ""%string ->
                    Order.message e = getStatusMessage status))
  /\ (forall canned, In (status, canned) messages -> getStatusMessage status = Text canned)
  /\ (~ In status (map fst messages) -> ~ In status Object_prototype_members ->
      getStatusMessage status = Text "Status updated")
  /\ (status = "delivered"%string -> actualDelivery o = None ->
      actualDelivery o' = Some td)
  /\ (forall d later, actualDelivery o = Some d ->
      actualDelivery (apply_transitions later o') = Some d).
Proof.
  intros New. cbv zeta. repeat split.
  - unfold updateStatus. cbv zeta.
    match goal with |- orderStatus (save _ ?x) = _ =>
      destruct (save_fields ts x) as (-> & _) end.
    destruct (_ && _); reflexivity.
  - eexists. repeat split.
    + unfold updateStatus. cbv zeta.
      match goal with |- timeline (save _ ?x) = _ =>
        destruct (save_fields ts x) as (_ & _ & _ & ->);
        replace (isNew x) with false
      end.
      * rewrite app_nil_r. destruct (_ && _); reflexivity.
      * destruct (_ && _); simpl; now rewrite New.
    + reflexivity.
    + intros m -> Hm. simpl. destruct m; [congruence|reflexivity].
    + intros [->| ->]; reflexivity.
  - apply own_message.
  - apply fallback_message.
  - intros -> H. rewrite updateStatus_actualDelivery. now rewrite H.
  - intros d later H. apply delivery_stamp_kept.
    rewrite updateStatus_actualDelivery. now rewrite H.
Qed.

Lemma updateStatus_spec_witness :
  isNew saved_order = false
  /\ orderStatus (updateStatus 2000 2001 2002 "delivered" None saved_order) = "delivered"%string.
Proof.
  split; [reflexivity|].
  exact (proj1 (updateStatus_spec 2000 2001 2002 "delivered" None saved_order eq_refl)).
Defined.

(** C4, as stated, fails in three places.  A supplied empty message is
    replaced by the canned one.  An order that was never saved receives two
    entries, the transition's and then the pending one its first save adds.
    A status that names a member of Object.prototype gets that member for a
    message instead of "Status updated". *)
Lemma updateStatus_counterexample :
  (map message (timeline (updateStatus 2000 2001 2002 "shipped" (Some ""%string) saved_order))
   = [Text "Order has been placed"; Text "Order has been shipped"]
   /\ ~ (exists e,
            timeline (updateStatus 2000 2001 2002 "shipped" (Some ""%string) saved_order)
            = timeline saved_order ++ [e]
            /\ message e = Text ""))
  /\ (map status (timeline (updateStatus 2000 2001 2002 "confirmed" None
                                         (new_Order plain_fields)))
      = ["confirmed"; "pending"]%string
      /\ ~ (exists e,
               timeline (updateStatus 2000 2001 2002 "confirmed" None (new_Order plain_fields))
               = timeline (new_Order plain_fields) ++ [e]))
  /\ (map message (timeline (updateStatus 2000 2001 2002 "toString" None saved_order))
      = [Text "Order has been placed"; Inherited "toString"]
      /\ ~ (exists e,
               timeline (updateStatus 2000 2001 2002 "toString" None saved_order)
               = timeline saved_order ++ [e]
               /\ message e = Text "Status updated")).
Proof.
  repeat split; try reflexivity; intros (e & H); vm_compute in H.
  - destruct H as [H1 H2]. inversion H1; subst e. discriminate H2.
  - discriminate H.
  - destruct H as [H1 H2]. inversion H1; subst e. discriminate H2.
Qed.

(** The timeline is append-only under transitions. *)
Theorem timeline_append_only (ts : list Transition) (o : OrderDocument) :
  exists appended, timeline (apply_transitions ts o) = timeline o ++ appended.
Proof.
  revert o. induction ts as [|t ts IH]; intros o; simpl.
  - exists []. now rewrite app_nil_r.
  - destruct (IH (apply_transition o t)) as (more & ->).
    unfold apply_transition, updateStatus. cbv zeta.
    match goal with |- context [timeline (save ?n ?x)] =>
      destruct (save_fields n x) as (_ & _ & _ & ->) end.
    match goal with |- context [if ?b then set_actualDelivery _ _ else _] =>
      destruct b end; simpl; rewrite <- !app_assoc; eexists; reflexivity.
Qed.

(** ** Cancellation and return windows *)

(** X3. canBeCancelled holds exactly for pending, confirmed and processing. *)
Theorem canBeCancelled_spec (o : OrderDocument) :
  (canBeCancelled o = true <->
   orderStatus o = "pending"%string \/ orderStatus o = "confirmed"%string
   \/ orderStatus o = "processing"%string)
  /\ (orderStatus o = "shipped"%string \/ orderStatus o = "delivered"%string
      \/ orderStatus o = "cancelled"%string \/ orderStatus o = "refunded"%string ->
      canBeCancelled o = false).
Proof.
  unfold canBeCancelled. split.
  - simpl. rewrite !orb_true_iff, !String.eqb_eq. intuition discriminate.
  - intros [-> | [-> | [-> | ->]]]; reflexivity.
Qed.

(** C5. canBeReturned is true exactly when the status is delivered, an actual
    delivery is recorded and at most 7 days (604,800,000 ms) have passed
    since; one millisecond later it is false. *)
Theorem canBeReturned_spec (now : Z) (o : OrderDocument) :
  (canBeReturned now o = true <->
   orderStatus o = "delivered"%string
   /\ exists delivered, actualDelivery o = Some delivered
                        /\ (now - delivered <= 604800000)%Z)
  /\ (forall delivered,
         orderStatus o = "delivered"%string ->
         actualDelivery o = Some delivered ->
         canBeReturned (delivered + 604800000) o = true
         /\ canBeReturned (delivered + 604800000 + 1) o = false).
Proof.
  unfold canBeReturned. split.
  - destruct (actualDelivery o) as [d|].
    + destruct (String.eqb (orderStatus o) "delivered") eqn:E; simpl.
      * apply String.eqb_eq in E. rewrite Z.leb_le. change (7 * 24 * 60 * 60 * 1000)%Z
          with 604800000%Z. split.
        -- intros H. split; [assumption|]. now exists d.
        -- intros (_ & d' & [= <-] & H). exact H.
      * apply String.eqb_neq in E. split; [discriminate|]. intros [H _]. contradiction.
    + split; [discriminate|]. intros (_ & d & H & _). discriminate.
  - intros d Hs Hd. rewrite Hd, Hs. simpl. change (7 * 24 * 60 * 60 * 1000)%Z
      with 604800000%Z. split.
    + apply Z.leb_le. lia.
    + apply Z.leb_gt. lia.
Qed.

Lemma canBeReturned_spec_witness :
  canBeReturned (5000 + 604800000 + 1) delivered_order = false.
Proof.
  exact (proj2 (proj2 (canBeReturned_spec 0 delivered_order) 5000%Z eq_refl eq_refl)).
Defined.

(** ** Creation *)

(** C8. The hook that adds the initial timeline entry gives an order
    constructed without a timeline (or with an empty one) exactly one entry,
    of status pending.  It does not look at the timeline it pushes onto: an
    order constructed with a timeline keeps it and gets the pending entry
    appended.  An order imported as shipped, with its shipped entry, thus
    leaves its creation with two entries, shipped then pending, while its
    status is shipped. *)
Theorem creation_appends_to_supplied_timeline :
  (forall now f,
      f_timeline f = None \/ f_timeline f = Some [] ->
      exists e, timeline (create now f) = [e] /\ status e = "pending"%string)
  /\ map status (timeline (create 1000 fields_with_history))
     = ["shipped"; "pending"]%string
  /\ orderStatus (create 1000 fields_with_history) = "shipped"%string
  /\ ~ (exists e, timeline (create 1000 fields_with_history) = [e]
                  /\ status e = "pending"%string).
Proof.
  split; [|split; [reflexivity|split; [reflexivity|]]].
  - intros now f H. exists (placed now).
    assert (E : timeline (create now f)
                = match f_timeline f with Some supplied => supplied | None => [] end
                  ++ [placed now]) by reflexivity.
    rewrite E. destruct H as [-> | ->]; split; reflexivity.
  - intros (e & H & _). vm_compute in H. discriminate H.
Qed.

End OrderProps.

Module ProductProps.

Import Product.

Lemma lt_true a b : JS.lt a b = true <-> a < b.
Proof.
  unfold JS.lt. rewrite negb_true_iff. split.
  - intros H. apply Qnot_le_lt. intros L. apply Qle_bool_iff in L. congruence.
  - intros H. destruct (Qle_bool b a) eqn:E; [|reflexivity].
    apply Qle_bool_iff in E. exfalso. eapply Qlt_not_le; eassumption.
Qed.

Lemma lt_false a b : JS.lt a b = false <-> ~ a < b.
Proof.
  rewrite <- lt_true. destruct (JS.lt a b); split; congruence.
Qed.

Lemma save_stock p : stock (save p) = stock p.
Proof. unfold save, pre_save. destruct (_ && _); reflexivity. Qed.

(** ** Discounts *)




End ProductProps.

Module ReviewProps.

Import Review.

(** ** Helpful votes *)

Lemma includes_In u l : includes u l = true <-> In u l.
Proof.
  unfold includes. rewrite List.existsb_exists. split.
  - intros (x & Hx & E). apply N.eqb_eq in E. now subst x.
  - intros H. exists u. split; [assumption|apply N.eqb_refl].
Qed.

Lemma save_keeps_votes r db :
  helpful (fst (save r db)) = helpful r /\ helpfulBy (fst (save r db)) = helpfulBy r.
Proof.
  unfold save. destruct (negb (validate r)); [split; reflexivity|].
  destruct (write _ db); destruct (isNew r); split; reflexivity.
Qed.



(** ** Rating aggregate *)

Lemma reduce_ratings acc rs :
  fold_left (fun sum review => sum + rating review) rs acc == acc + ratings_sum rs.
Proof.
  revert acc. induction rs as [|r rest IH]; intros acc; simpl.
  - ring.
  - rewrite IH. ring.
Qed.

Lemma round_to_tenth x : nearest_tenth x (inject_Z (Math_round (x * 10)) / 10).
Proof.
  unfold nearest_tenth, Math_round.
  pose proof (Qfloor_le (x * 10 + (1 # 2))) as Lo.
  pose proof (Qlt_floor (x * 10 + (1 # 2))) as Hi.
  rewrite inject_Z_plus in Hi.
  set (k := Qfloor (x * 10 + (1 # 2))) in *.
  set (y := inject_Z k / 10).
  assert (Hy : y * 10 == inject_Z k) by (unfold y; field).
  change (inject_Z 1) with 1 in Hi.
  split; [exists k; reflexivity|]. split; lra.
Qed.

Lemma length_positive {A} (l : list A) : JS.gt (length_number l) 0 = negb (match l with [] => true | _ => false end).
Proof.
  destruct l as [|a l]; [reflexivity|].
  unfold JS.gt, JS.lt, length_number. simpl negb at 2.
  rewrite negb_true_iff. destruct (Qle_bool _ 0) eqn:E; [|reflexivity].
  apply Qle_bool_iff in E. unfold Qle in E. simpl in E. lia.
Qed.

Lemma save_ratings p : Product.ratings (Product.save p) = Product.ratings p.
Proof. unfold Product.save, Product.pre_save. destruct (_ && _); reflexivity. Qed.

(** The hook body leaves the reviews alone and stores, on the product of
    [this], the aggregate recomputed from the approved reviews it finds. *)
Lemma update_product_rating_spec this db p :
  products db !! product this = Some p ->
  reviews (update_product_rating this db) = reviews db
  /\ (exists p', products (update_product_rating this db) !! product this = Some p'
                 /\ recomputed (product this) (reviews db) (Product.ratings p'))
  /\ (forall id, id <> product this ->
                 products (update_product_rating this db) !! id = products db !! id).
Proof.
  intros Hp. unfold update_product_rating. rewrite Hp. cbv zeta.
  split; [reflexivity|]. split.
  - eexists. split; [apply lookup_insert_eq|].
    rewrite save_ratings. unfold recomputed. cbv zeta. simpl.
    fold (find_approved (product this) db).
    set (approved := find_approved (product this) db).
    rewrite length_positive.
    split; [reflexivity|]. split.
    + intros ->. reflexivity.
    + intros NE. destruct approved as [|a rest] eqn:E; [congruence|].
      simpl negb. cbv iota. rewrite <- E.
      assert (S : fold_left (fun sum review => sum + rating review) approved 0
                  / length_number approved
                  == ratings_sum approved / inject_Z (Z.of_nat (length approved))).
      { rewrite reduce_ratings. unfold length_number. now rewrite Qplus_0_l. }
      destruct (round_to_tenth
                  (fold_left (fun sum review => sum + rating review) approved 0
                   / length_number approved)) as ((k & Hk) & Lo & Hi).
      unfold nearest_tenth. rewrite <- S.
      split; [exists k; exact Hk|]. split; assumption.
  - intros id Hid. simpl. now apply lookup_insert_ne.
Qed.

(** Case analysis on the test of the conditional the goal starts with. *)
Ltac on_test :=
  match goal with
  | |- (if ?b then _ else _) = _ -> _ => destruct b eqn:?
  end.

Lemma write_products r db db1 : write r db = Ok db1 -> products db1 = products db.
Proof.
  unfold write. on_test; repeat on_test; intros [= <-]; reflexivity.
Qed.






(** X5. isVerifiedPurchase holds exactly when some order of the review's user
    contains the product and is delivered. *)
Theorem isVerifiedPurchase_spec r db :
  isVerifiedPurchase r db = true <->
  exists o, In o (orders db)
            /\ Order.user o = user r
            /\ (exists i, In i (Order.items o) /\ Order.product i = product r)
            /\ Order.orderStatus o = "delivered"%string.
Proof.
  unfold isVerifiedPurchase. rewrite List.existsb_exists. split.
  - intros (o & Ho & H). apply andb_prop in H. destruct H as [H Hs].
    apply andb_prop in H. destruct H as [Hu Hi].
    exists o. split; [assumption|]. split; [now apply N.eqb_eq|]. split.
    + apply List.existsb_exists in Hi. destruct Hi as (i & Hi & E).
      exists i. split; [assumption|now apply N.eqb_eq].
    + now apply String.eqb_eq.
  - intros (o & Ho & Hu & (i & Hi & E) & Hs). exists o. split; [assumption|].
    rewrite Hu, Hs, N.eqb_refl, String.eqb_refl. simpl. rewrite andb_true_r.
    apply List.existsb_exists. exists i. split; [assumption|now apply N.eqb_eq].
Qed.

(** C2 holds along the hooks and breaks along the cascade of User.deleteOne.
    After the two saves the aggregate is (3.0, 2), and deleting the 4-star
    review as a document recomputes it to (2.0, 1).  Deleting its author
    instead removes the same review through deleteMany, which runs no review
    hook: the only approved review left has 2 stars, yet the product still
    carries (3.0, 2). *)
Theorem cascade_leaves_rating_stale :
  has_rating two_reviews shoe_id 3 2
  /\ has_rating (deleteOne (review_of 100 alice 4) two_reviews) shoe_id 2 1
  /\ map rating (find_approved shoe_id (User.deleteOne alice two_reviews)) = [2]
  /\ has_rating (User.deleteOne alice two_reviews) shoe_id 3 2
  /\ ~ has_rating (User.deleteOne alice two_reviews) shoe_id 2 1.
Proof.
  assert (E2 : products two_reviews !! shoe_id
               = Some (Product.set_ratings (Product.mkRatings (30 # 10) 2) shoe))
    by (vm_compute; reflexivity).
  assert (E1 : products (deleteOne (review_of 100 alice 4) two_reviews) !! shoe_id
               = Some (Product.set_ratings (Product.mkRatings (20 # 10) 1) shoe))
    by (vm_compute; reflexivity).
  assert (E3 : products (User.deleteOne alice two_reviews) !! shoe_id
               = Some (Product.set_ratings (Product.mkRatings (30 # 10) 2) shoe))
    by (vm_compute; reflexivity).
  repeat split.
  - eexists. split; [exact E2|]. split; reflexivity.
  - eexists. split; [exact E1|]. split; reflexivity.
  - eexists. split; [exact E3|]. split; reflexivity.
  - intros (p & Hp & Ha & _). rewrite E3 in Hp. injection Hp as <-.
    simpl in Ha. discriminate Ha.
Qed.

End ReviewProps.

(* ------------------------------------------------------------------------- *)
(** * Slugs: shape, idempotence, stability                                     *)
(* ------------------------------------------------------------------------- *)

Module SlugInvariants.

Import Slug SlugProps.

Lemma separated_app_l l l' : separated (l ++ l') = true -> separated l = true.
Proof.
  induction l as [|c l IH]; [reflexivity|].
  destruct l as [|d l]; [reflexivity|].
  change ((c :: d :: l) ++ l') with (c :: d :: (l ++ l')).
  cbn [separated]. rewrite !andb_true_iff. intros [H1 H2]. split; [exact H1|].
  apply IH. exact H2.
Qed.

Lemma strip_last_prefix s : exists tail, s = strip_last s ++ tail.
Proof.
  induction s as [|c t (tail & IH)]; [exists []; reflexivity|].
  destruct t as [|d u].
  - simpl. destruct (is_hyphen c); [exists [c]|exists []]; reflexivity.
  - exists tail. change (c :: d :: u = c :: (strip_last (d :: u) ++ tail)).
    now f_equal.
Qed.

Lemma strip_edges_separated s : separated s = true -> separated (strip_edges s) = true.
Proof.
  intros S. unfold strip_edges.
  assert (S1 : separated (strip_first s) = true).
  { destruct s as [|c t]; [reflexivity|]. unfold strip_first.
    destruct (is_hyphen c); [now apply separated_tail in S|exact S]. }
  destruct (strip_last_prefix (strip_first s)) as (tail & E).
  rewrite E in S1. now apply separated_app_l in S1.
Qed.

Lemma drop_while_head_clear p s :
  match drop_while p s with c :: _ => p c = false | [] => True end.
Proof.
  induction s as [|c t IH]; simpl; [exact I|].
  destruct (p c) eqn:E; [exact IH|exact E].
Qed.

Lemma spec_strip_ends s :
  separated s = true ->
  head_not_hyphen (spec_strip s) /\ head_not_hyphen (rev (spec_strip s)).
Proof.
  intros S. split.
  - rewrite <- strip_edges_spec by assumption. unfold strip_edges.
    pose proof (drop_while_head_clear is_hyphen s) as H.
    rewrite <- strip_first_spec in H by assumption.
    destruct (strip_first s) as [|c t]; [exact I|].
    destruct t as [|d u]; simpl in *; [now rewrite H|exact H].
  - unfold spec_strip. rewrite rev_involutive. apply drop_while_head_clear.
Qed.

Lemma slugify_well_formed name : well_formed (slugify name).
Proof.
  pose proof (replace_runs_shape (toLowerCase name) false) as (F & S & _).
  unfold well_formed. split; [apply slugify_chars|]. split.
  - unfold slugify. now apply strip_edges_separated.
  - unfold slugify. rewrite strip_edges_spec by assumption. now apply spec_strip_ends.
Qed.

Lemma generate_slug_slugify name :
  list_ascii_of_string (generate_slug name) = slugify (list_ascii_of_string name).
Proof.
  unfold generate_slug. rewrite slug_setter_slugify.
  apply list_ascii_of_string_of_list_ascii.
Qed.

(** X6. Every derived slug is URL-safe: only characters of [a-z0-9-], no
    two hyphens in a row, and no hyphen at either end. *)
Theorem slug_well_formed (name : string) :
  well_formed (list_ascii_of_string (generate_slug name)).
Proof. rewrite generate_slug_slugify. apply slugify_well_formed. Qed.

(** On a well-formed slug the scan finds nothing to replace. *)
Lemma replace_runs_fixed s :
  Forall (fun c => slug_char c = true) s -> separated s = true ->
  (head_not_hyphen s -> replace_runs true s = s) /\ replace_runs false s = s.
Proof.
  induction 1 as [|c t Hc Ht IH]; intros S; [split; reflexivity|].
  pose proof (separated_tail _ _ S) as St. destruct (IH St) as [IHt IHf].
  cbn [replace_runs]. destruct (lower_alnum c) eqn:Ec.
  - split; intros; now rewrite IHf.
  - assert (Hy : is_hyphen c = true).
    { unfold slug_char in Hc. rewrite Ec in Hc. exact Hc. }
    split.
    + intros H. simpl in H. congruence.
    + rewrite IHt.
      * f_equal. revert Hy. clear. destruct c as [[] [] [] [] [] [] [] []]; vm_compute;
          congruence.
      * destruct t as [|d u]; [exact I|]. simpl in S. rewrite Hy in S. simpl in S.
        apply andb_prop in S. destruct S as [S _]. now apply negb_true_iff in S.
Qed.

Lemma strip_edges_fixed s :
  head_not_hyphen s -> head_not_hyphen (rev s) -> strip_edges s = s.
Proof.
  intros H1 H2. unfold strip_edges.
  assert (E : strip_first s = s).
  { destruct s as [|c t]; [reflexivity|]. simpl in *. now rewrite H1. }
  rewrite E. destruct s as [|d l] using rev_ind; [reflexivity|].
  rewrite strip_last_snoc. rewrite rev_app_distr in H2. simpl in H2. now rewrite H2.
Qed.

Lemma slugify_fixed s : well_formed s -> slugify s = s.
Proof.
  intros (F & S & H1 & H2). unfold slugify.
  rewrite toLowerCase_slug by assumption.
  destruct (replace_runs_fixed s F S) as [_ ->].
  now apply strip_edges_fixed.
Qed.

(** X7. Deriving a slug from a slug changes nothing: the derivation is
    idempotent, so a name that already is a slug is its own slug. *)
Theorem slug_idempotent (name : string) :
  generate_slug (generate_slug name) = generate_slug name.
Proof.
  unfold generate_slug at 1. rewrite generate_slug_slugify, slug_setter_slugify.
  rewrite slugify_fixed by apply slugify_well_formed.
  rewrite <- generate_slug_slugify. apply string_of_list_ascii_of_string.
Qed.

Lemma replace_runs_keeps c s b :
  lower_alnum c = true -> In c s -> In c (replace_runs b s).
Proof.
  intros Hc. revert b. induction s as [|d t IH]; intros b; [intros []|].
  intros [->|H]; cbn [replace_runs].
  - rewrite Hc. now left.
  - destruct (lower_alnum d); [right; now apply IH|].
    destruct b; [now apply IH|right; now apply IH].
Qed.

Lemma strip_first_keeps c s : is_hyphen c = false -> In c s -> In c (strip_first s).
Proof.
  intros Hc. destruct s as [|d t]; [intros []|]. unfold strip_first.
  destruct (is_hyphen d) eqn:Ed; [|auto].
  intros [->|H]; [congruence|exact H].
Qed.

Lemma strip_last_keeps c s : is_hyphen c = false -> In c s -> In c (strip_last s).
Proof.
  intros Hc. induction s as [|d t IH]; [intros []|].
  destruct t as [|e u].
  - intros [->|[]]. simpl. rewrite Hc. now left.
  - change (strip_last (d :: e :: u)) with (d :: strip_last (e :: u)).
    intros [->|H]; [now left|right; now apply IH].
Qed.

Lemma replace_runs_nothing s :
  Forall (fun c => lower_alnum c = false) s ->
  replace_runs true s = [] /\ (replace_runs false s = [] \/ replace_runs false s = [hyphen]).
Proof.
  induction 1 as [|c t Hc Ht [IHt IHf]]; [split; [reflexivity|now left]|].
  cbn [replace_runs]. rewrite Hc, IHt. split; [reflexivity|now right].
Qed.

Lemma slugify_empty_iff s :
  slugify s = [] <-> Forall (fun c => lower_alnum c = false) (toLowerCase s).
Proof.
  unfold slugify. split.
  - intros E. apply List.Forall_forall. intros c Hc.
    destruct (lower_alnum c) eqn:Ec; [|reflexivity]. exfalso.
    assert (K : In c (strip_edges (replace_runs false (toLowerCase s)))).
    { unfold strip_edges.
      apply strip_last_keeps, strip_first_keeps, replace_runs_keeps;
        auto using lower_alnum_not_hyphen. }
    rewrite E in K. destruct K.
  - intros F. destruct (replace_runs_nothing _ F) as [_ [-> | ->]]; reflexivity.
Qed.

Lemma generate_slug_empty (name : string) :
  generate_slug name = ""%string <-> ~ has_alnum name.
Proof.
  unfold has_alnum.
  assert (N : forall l, Forall (fun c => lower_alnum c = false) l
                        <-> ~ Exists (fun c => lower_alnum c = true) l).
  { intros l. rewrite <- List.Forall_Exists_neg, !List.Forall_forall.
    split; intros H c Hc; specialize (H c Hc);
      destruct (lower_alnum c); congruence. }
  rewrite <- N, <- slugify_empty_iff, <- generate_slug_slugify.
  split; [intros ->; reflexivity|].
  intros E. rewrite <- (string_of_list_ascii_of_string (generate_slug name)), E.
  reflexivity.
Qed.

(** X8. The derived slug is empty exactly when the lowercased name has no
    character of [a-z0-9]; any name with a letter or digit gets a slug. *)
Theorem slug_empty_iff (name : string) :
  generate_slug name = ""%string <-> ~ has_alnum name.
Proof. apply generate_slug_empty. Qed.

(** X9. Once a save has derived a non-empty slug, renaming never changes
    it: the slug of a category or product whose name has a letter or digit
    is fixed by the first save, whatever the name becomes afterwards. *)
Theorem slug_fixed_by_first_save (new_name : string) :
  (forall c,
      Category.modified_name c = true ->
      Category.slug c = None \/ Category.slug c = Some ""%string ->
      has_alnum (Category.name c) ->
      exists s, s <> ""%string
                /\ Category.slug (Category.pre_save c) = Some s
                /\ Category.slug
                     (Category.pre_save (Category.rename new_name (Category.pre_save c)))
                   = Some s)
  /\ (forall p,
         Product.modified_name p = true ->
         Product.seo_slug p = None \/ Product.seo_slug p = Some ""%string ->
         has_alnum (Product.name p) ->
         exists s, s <> ""%string
                   /\ Product.seo_slug (Product.save p) = Some s
                   /\ Product.seo_slug
                        (Product.save (Product.rename new_name (Product.save p)))
                      = Some s).
Proof.
  split.
  - intros c Hm Hs Ha. exists (generate_slug (Category.name c)).
    assert (NE : generate_slug (Category.name c) <> ""%string)
      by (rewrite generate_slug_empty; tauto).
    assert (E : Category.slug (Category.pre_save c)
                = Some (generate_slug (Category.name c))).
    { unfold Category.pre_save. rewrite Hm. destruct Hs as [-> | ->]; reflexivity. }
    repeat split; [exact NE|exact E|].
    unfold Category.pre_save at 1. unfold Category.rename.
    cbn [Category.modified_name Category.slug]. rewrite E.
    destruct (generate_slug (Category.name c)); [congruence|reflexivity].
  - intros p Hm Hs Ha. exists (generate_slug (Product.name p)).
    assert (NE : generate_slug (Product.name p) <> ""%string)
      by (rewrite generate_slug_empty; tauto).
    assert (E : Product.seo_slug (Product.save p)
                = Some (generate_slug (Product.name p))).
    { unfold Product.save, Product.pre_save. rewrite Hm.
      destruct Hs as [-> | ->]; reflexivity. }
    repeat split; [exact NE|exact E|].
    assert (Kept : forall q, Product.seo_slug q = Some (generate_slug (Product.name p)) ->
                             Product.seo_slug (Product.save q)
                             = Some (generate_slug (Product.name p))).
    { intros q Hq. unfold Product.save, Product.pre_save. rewrite Hq.
      destruct (generate_slug (Product.name p)); [congruence|].
      cbn [truthy_opt_string truthy_string negb]. rewrite andb_false_r. exact Hq. }
    apply Kept. exact E.
Qed.

Lemma slug_fixed_by_first_save_witness :
  exists s, s <> ""%string
            /\ Category.slug (Category.pre_save Category.running_shoes) = Some s
            /\ Category.slug
                 (Category.pre_save
                    (Category.rename "Trail Shoes" (Category.pre_save Category.running_shoes)))
               = Some s.
Proof.
  refine (proj1 (slug_fixed_by_first_save "Trail Shoes") Category.running_shoes
                eq_refl (or_introl eq_refl) _).
  unfold has_alnum. apply Exists_cons_hd. reflexivity.
Defined.

End SlugInvariants.

(* ------------------------------------------------------------------------- *)
(** * Products: stock arithmetic, running rating, discount percentage          *)
(* ------------------------------------------------------------------------- *)

Module ProductInvariants.

Import Product ProductProps.

Lemma reduceStock_ok qty p :
  snd (reduceStock qty p) = Ok tt <-> qty <= stock p.
Proof.
  unfold reduceStock. destruct (JS.lt (stock p) qty) eqn:E; simpl.
  - apply lt_true in E. split; [discriminate|]. intros H. exfalso.
    eapply Qlt_not_le; eassumption.
  - apply lt_false in E. split; [|reflexivity]. intros _. now apply Qnot_lt_le.
Qed.

Lemma reduceStock_stock qty p :
  qty <= stock p -> stock (fst (reduceStock qty p)) == stock p - qty.
Proof.
  intros H. unfold reduceStock.
  destruct (JS.lt (stock p) qty) eqn:E; cbn [fst].
  - apply lt_true in E. exfalso. eapply Qlt_not_le; eassumption.
  - rewrite save_stock. reflexivity.
Qed.

(** X10. A reduction that succeeds never leaves a negative stock, whatever
    the stock and the quantity were; the product is then in stock exactly
    when the quantity was strictly below the stock. *)
Theorem reduceStock_never_negative (qty : Q) (p : ProductDocument) :
  snd (reduceStock qty p) = Ok tt ->
  0 <= stock (fst (reduceStock qty p))
  /\ (isInStock (fst (reduceStock qty p)) = true <-> qty < stock p).
Proof.
  intros H. apply reduceStock_ok in H.
  pose proof (reduceStock_stock qty p H) as E. split.
  - rewrite E. lra.
  - unfold isInStock. rewrite OrderProps.gt_true, E. split; intros; lra.
Qed.

Lemma reduceStock_never_negative_witness :
  0 <= stock (fst (reduceStock 5 five_in_stock)).
Proof.
  exact (proj1 (reduceStock_never_negative 5 five_in_stock eq_refl)).
Defined.

End ProductInvariants.

(* ------------------------------------------------------------------------- *)
(** * Orders: transitions over time, statistics, order numbers                 *)
(* ------------------------------------------------------------------------- *)

Module OrderInvariants.

Import Order OrderProps.

(** ** Runs of transitions *)

Lemma updateStatus_fields te td ts status msg o :
  orderStatus (updateStatus te td ts status msg o) = status
  /\ isNew (updateStatus te td ts status msg o) = false
  /\ (isNew o = false ->
      map Order.status (timeline (updateStatus te td ts status msg o))
      = map Order.status (timeline o) ++ [status]).
Proof.
  unfold updateStatus. cbv zeta.
  match goal with |- context [save ts ?x] =>
    destruct (save_fields ts x) as (-> & _ & -> & ->); set (o3 := x) end.
  assert (E : orderStatus o3 = status /\ isNew o3 = isNew o
              /\ map Order.status (timeline o3) = map Order.status (timeline o) ++ [status]).
  { unfold o3. destruct (_ && _); simpl; rewrite map_app; auto. }
  destruct E as (-> & -> & E). repeat split.
  intros ->. now rewrite app_nil_r.
Qed.

Lemma apply_transitions_snoc ts t o :
  apply_transitions (ts ++ [t]) o = apply_transition (apply_transitions ts o) t.
Proof. unfold apply_transitions. now rewrite fold_left_app. Qed.

Lemma apply_transitions_saved ts o :
  isNew o = false -> isNew (apply_transitions ts o) = false.
Proof.
  revert o. induction ts as [|t ts IH]; intros o H; [exact H|].
  apply IH. unfold apply_transition. apply updateStatus_fields.
Qed.

(** X15. On a saved order the timeline records every transition, in order:
    after a run of transitions its statuses are the earlier ones followed by
    the new statuses one by one, and the order's status is the last of them,
    so status and last timeline entry always agree. *)
Theorem timeline_records_transitions (ts : list Transition) (o : OrderDocument) :
  isNew o = false ->
  map Order.status (timeline (apply_transitions ts o))
  = map Order.status (timeline o) ++ map new_status ts
  /\ orderStatus (apply_transitions ts o) = List.last (map new_status ts) (orderStatus o)
  /\ (ts <> [] ->
      List.last (map Order.status (timeline (apply_transitions ts o))) ""%string
      = orderStatus (apply_transitions ts o)).
Proof.
  intros New.
  assert (G : map Order.status (timeline (apply_transitions ts o))
              = map Order.status (timeline o) ++ map new_status ts
              /\ orderStatus (apply_transitions ts o)
                 = List.last (map new_status ts) (orderStatus o)).
  { induction ts as [|t ts [IH1 IH2]] using rev_ind.
    - simpl. now rewrite app_nil_r.
    - rewrite apply_transitions_snoc. unfold apply_transition.
      destruct (updateStatus_fields (t_entry t) (t_delivery t) (t_save t)
                  (new_status t) (supplied t) (apply_transitions ts o))
        as (-> & _ & E).
      rewrite E by now apply apply_transitions_saved.
      rewrite IH1, map_app. cbn [map]. rewrite List.last_last, app_assoc.
      split; reflexivity. }
  destruct G as [G1 G2]. repeat split; [exact G1|exact G2|].
  intros NE. rewrite G1, G2.
  destruct ts as [|t ts] using rev_ind; [congruence|].
  rewrite map_app. cbn [map]. now rewrite app_assoc, !List.last_last.
Qed.

Lemma timeline_records_transitions_witness :
  map Order.status (timeline (apply_transitions [to_delivered; to_refunded] saved_order))
  = ["pending"; "delivered"; "refunded"]%string.
Proof.
  exact (proj1 (timeline_records_transitions [to_delivered; to_refunded] saved_order eq_refl)).
Defined.

(** ** Cancelling and returning *)

Lemma canBeReturned_true now o :
  canBeReturned now o = true <->
  orderStatus o = "delivered"%string
  /\ exists d, actualDelivery o = Some d /\ (now - d <= 604800000)%Z.
Proof.
  unfold canBeReturned. destruct (actualDelivery o) as [d|].
  - destruct (String.eqb (orderStatus o) "delivered") eqn:E; simpl.
    + apply String.eqb_eq in E. rewrite Z.leb_le.
      change (7 * 24 * 60 * 60 * 1000)%Z with 604800000%Z. split.
      * intros H. split; [assumption|]. now exists d.
      * intros (_ & d' & [= <-] & H). exact H.
    + apply String.eqb_neq in E. split; [discriminate|]. intros [H _]. contradiction.
  - split; [discriminate|]. intros (_ & d & H & _). discriminate.
Qed.

(** X16. No order is cancellable and returnable at the same moment. *)
Theorem never_cancellable_and_returnable (now : Z) (o : OrderDocument) :
  canBeCancelled o = true -> canBeReturned now o = false.
Proof.
  intros C. destruct (canBeReturned now o) eqn:R; [|reflexivity].
  apply canBeReturned_true in R. destruct R as [S _].
  unfold canBeCancelled in C. rewrite S in C. discriminate C.
Qed.

Lemma never_cancellable_and_returnable_witness :
  canBeReturned 5000 (set_orderStatus "processing" delivered_order) = false.
Proof.
  exact (never_cancellable_and_returnable 5000
           (set_orderStatus "processing" delivered_order) eq_refl).
Defined.

Lemma undelivered_stays_unstamped ts o :
  actualDelivery o = None ->
  Forall (fun t => new_status t <> "delivered"%string) ts ->
  actualDelivery (apply_transitions ts o) = None.
Proof.
  revert o. induction ts as [|t ts IH]; intros o H F; [exact H|].
  inversion F as [|? ? Ht Hts]; subst. simpl. apply IH; [|assumption].
  unfold apply_transition. rewrite updateStatus_actualDelivery, H.
  destruct (String.eqb (new_status t) "delivered") eqn:E; [|reflexivity].
  apply String.eqb_eq in E. contradiction.
Qed.

(** X17. The return window counts from the first delivery.  After any run
    of transitions the delivery stamp is the clock reading of the first
    transition to delivered, and the order is returnable exactly when its
    status is delivered and at most 7 days have passed since that reading;
    a later second delivery does not reopen the window. *)
Theorem return_window_from_first_delivery
        (before after : list Transition) (first : Transition) (now : Z)
        (o : OrderDocument) :
  actualDelivery o = None ->
  Forall (fun t => new_status t <> "delivered"%string) before ->
  new_status first = "delivered"%string ->
  let o' := apply_transitions (before ++ first :: after) o in
  actualDelivery o' = Some (t_delivery first)
  /\ (canBeReturned now o' = true <->
      orderStatus o' = "delivered"%string
      /\ (now - t_delivery first <= 604800000)%Z).
Proof.
  intros H F D. cbv zeta.
  assert (E : actualDelivery (apply_transitions (before ++ first :: after) o)
              = Some (t_delivery first)).
  { unfold apply_transitions. rewrite fold_left_app. simpl.
    apply delivery_stamp_kept. unfold apply_transition at 1.
    rewrite updateStatus_actualDelivery.
    fold (apply_transitions before o).
    rewrite (undelivered_stays_unstamped before o H F), D. reflexivity. }
  split; [exact E|]. rewrite canBeReturned_true, E. split.
  - intros (S & d & [= <-] & W). now split.
  - intros (S & W). split; [exact S|]. now exists (t_delivery first).
Qed.

Lemma return_window_from_first_delivery_witness :
  actualDelivery
    (apply_transitions ([to_shipped] ++ to_delivered :: [to_shipped; to_delivered_again])
                       saved_order)
  = Some 3001%Z.
Proof.
  refine (proj1 (return_window_from_first_delivery
                   [to_shipped] [to_shipped; to_delivered_again] to_delivered 0
                   saved_order eq_refl _ eq_refl)).
  repeat constructor. discriminate.
Defined.

(** ** Statistics *)






Lemma length_number_snoc {A} (l : list A) (a : A) :
  length_number (l ++ [a]) == length_number l + 1.
Proof.
  unfold length_number. rewrite length_app, Nat2Z.inj_add, inject_Z_plus. reflexivity.
Qed.







(** ** Order numbers *)

Lemma log2_tenth n : (10 <= n)%Z -> (Z.log2 (n / 10) < Z.log2 n)%Z.
Proof.
  intros H.
  assert (A : (n / 10 <= n / 2)%Z) by (apply Z.div_le_compat_l; lia).
  apply Z.log2_le_mono in A.
  assert (B : Z.log2 (n / 2) = Z.max 0 (Z.log2 n - 1)).
  { rewrite <- (Z.log2_shiftr n 1) by lia. now rewrite Z.shiftr_div_pow2 by lia. }
  assert (C : (0 < Z.log2 n)%Z) by (apply Z.log2_pos; lia).
  lia.
Qed.

Lemma decimal_succ fuel n :
  (0 <= n)%Z -> (Z.log2 n < Z.of_nat fuel)%Z -> decimal (S fuel) n = decimal fuel n.
Proof.
  revert n. induction fuel as [|f IH]; intros n Hn Hl.
  - pose proof (Z.log2_nonneg n). lia.
  - change (decimal (S (S f)) n)
      with (if (n <? 10)%Z then [digit_char n]
            else decimal (S f) (n / 10) ++ [digit_char (n mod 10)]).
    change (decimal (S f) n)
      with (if (n <? 10)%Z then [digit_char n]
            else decimal f (n / 10) ++ [digit_char (n mod 10)]).
    destruct (n <? 10)%Z eqn:E; [reflexivity|]. apply Z.ltb_ge in E.
    rewrite IH; [reflexivity|apply Z.div_pos; lia|].
    pose proof (log2_tenth n E). lia.
Qed.

Lemma decimal_enough fuel n :
  (0 <= n)%Z -> (Z.log2 n < Z.of_nat fuel)%Z -> decimal fuel n = Number_toString n.
Proof.
  intros Hn Hl. unfold Number_toString.
  assert (G : forall k, decimal (S (Z.to_nat (Z.log2 n)) + k) n
                        = decimal (S (Z.to_nat (Z.log2 n))) n).
  { induction k as [|k IH]; [now rewrite Nat.add_0_r|].
    rewrite Nat.add_succ_r, decimal_succ; [exact IH|exact Hn|].
    pose proof (Z.log2_nonneg n). lia. }
  pose proof (Z.log2_nonneg n).
  replace fuel with (S (Z.to_nat (Z.log2 n)) + (fuel - S (Z.to_nat (Z.log2 n))))%nat by lia.
  apply G.
Qed.

Lemma toString_digit n : (0 <= n < 10)%Z -> Number_toString n = [digit_char n].
Proof.
  intros H. unfold Number_toString. cbn [decimal].
  replace (n <? 10)%Z with true; [reflexivity|]. symmetry. apply Z.ltb_lt. lia.
Qed.

Lemma toString_step n :
  (10 <= n)%Z ->
  Number_toString n = Number_toString (n / 10) ++ [digit_char (n mod 10)].
Proof.
  intros H. unfold Number_toString at 1. cbn [decimal].
  replace (n <? 10)%Z with false by (symmetry; apply Z.ltb_ge; lia).
  rewrite decimal_enough; [reflexivity|apply Z.div_pos; lia|].
  pose proof (log2_tenth n H). pose proof (Z.log2_nonneg n). lia.
Qed.

Lemma toString_length k n :
  (10 ^ Z.of_nat k <= n)%Z -> (k < length (Number_toString n))%nat.
Proof.
  revert n. induction k as [|k IH]; intros n H.
  - change (10 ^ Z.of_nat 0)%Z with 1%Z in H.
    destruct (Z.lt_ge_cases n 10).
    + rewrite toString_digit by lia. simpl. lia.
    + rewrite toString_step by lia. rewrite length_app. simpl. lia.
  - rewrite Nat2Z.inj_succ, Z.pow_succ_r in H by lia.
    assert (0 < 10 ^ Z.of_nat k)%Z by (apply Z.pow_pos_nonneg; lia).
    rewrite toString_step by lia. rewrite length_app. simpl.
    assert (10 ^ Z.of_nat k <= n / 10)%Z by (apply Z.div_le_lower_bound; lia).
    specialize (IH _ H1). lia.
Qed.

Lemma slice_last_snoc k l d :
  (k <= length l)%nat -> slice_last (S k) (l ++ [d]) = slice_last k l ++ [d].
Proof.
  intros H. unfold slice_last. rewrite length_app. simpl.
  replace (length l + 1 - S k)%nat with (length l - k)%nat by lia.
  rewrite skipn_app. replace (length l - k - length l)%nat with 0%nat by lia.
  reflexivity.
Qed.

Lemma slice_last_digits k n :
  (0 <= n)%Z -> (k <= length (Number_toString n))%nat ->
  slice_last k (Number_toString n) = last_digits k n.
Proof.
  revert n. induction k as [|k IH]; intros n Hn Hk.
  - unfold slice_last. rewrite Nat.sub_0_r. apply skipn_all.
  - cbn [last_digits]. destruct (Z.lt_ge_cases n 10) as [S|L].
    + rewrite toString_digit in * by lia. simpl in Hk.
      assert (k = 0%nat) by lia. subst k.
      rewrite Z.mod_small by lia. reflexivity.
    + rewrite toString_step in * by lia. rewrite length_app in Hk. simpl in Hk.
      rewrite slice_last_snoc by lia. rewrite IH; [reflexivity| |lia].
      apply Z.div_pos; lia.
Qed.

Lemma last_digits_period k n :
  last_digits k (n + 10 ^ Z.of_nat k) = last_digits k n.
Proof.
  revert n. induction k as [|k IH]; intros n; [reflexivity|].
  cbn [last_digits]. rewrite Nat2Z.inj_succ, Z.pow_succ_r by lia.
  replace (n + 10 * 10 ^ Z.of_nat k)%Z with (n + 10 ^ Z.of_nat k * 10)%Z by lia.
  rewrite Z.div_add, Z.mod_add by lia. now rewrite IH.
Qed.



(** From 10^7 ms after the epoch on, the number carries the last eight
    decimal digits of the clock. *)
Lemma generateOrderNumber_digits now random36 :
  (10 ^ 7 <= now)%Z ->
  list_ascii_of_string (generateOrderNumber now random36)
  = list_ascii_of_string "ORD-" ++ last_digits 8 now
    ++ "-"%char :: map toUpperCase_char (substring 2 8 (list_ascii_of_string random36)).
Proof.
  intros H. unfold generateOrderNumber. cbv zeta.
  rewrite list_ascii_of_string_of_list_ascii.
  rewrite slice_last_digits; [reflexivity|lia|].
  pose proof (toString_length 7 now H). lia.
Qed.



(** X20. The clock part of an order number repeats every 10^8 ms (about
    27.8 hours): with the same random draw, two orders generated that far
    apart receive the same number. *)
Theorem generateOrderNumber_period (now : Z) (random36 : string) :
  (10 ^ 7 <= now)%Z ->
  generateOrderNumber (now + 100000000) random36 = generateOrderNumber now random36.
Proof.
  intros H.
  rewrite <- (string_of_list_ascii_of_string (generateOrderNumber now random36)).
  rewrite <- (string_of_list_ascii_of_string (generateOrderNumber (now + 100000000) _)).
  rewrite !generateOrderNumber_digits by lia.
  change 100000000%Z with (10 ^ Z.of_nat 8)%Z. now rewrite last_digits_period.
Qed.

Lemma generateOrderNumber_period_witness :
  generateOrderNumber (1730560000123 + 100000000) "0.k3j5h2l9x"
  = generateOrderNumber 1730560000123 "0.k3j5h2l9x".
Proof.
  apply generateOrderNumber_period. vm_compute. discriminate.
Defined.

End OrderInvariants.

(* ------------------------------------------------------------------------- *)
(** * Reviews: what a save leaves alone, votes, rating bounds, statistics      *)
(* ------------------------------------------------------------------------- *)

Module ReviewInvariants.

Import Review ReviewProps.

(** ** What the hooks leave alone *)

Lemma update_product_rating_frame this db :
  reviews (update_product_rating this db) = reviews db
  /\ orders (update_product_rating this db) = orders db
  /\ users (update_product_rating this db) = users db
  /\ interactions (update_product_rating this db) = interactions db
  /\ (forall id, id <> product this ->
                 products (update_product_rating this db) !! id = products db !! id)
  /\ (forall p, products db !! product this = Some p ->
                exists p', products (update_product_rating this db) !! product this = Some p'
                           /\ same_but_rating p p')
  /\ (products db !! product this = None ->
      products (update_product_rating this db) !! product this = None).
Proof.
  unfold update_product_rating.
  destruct (products db !! product this) as [found|] eqn:E; cbv zeta.
  - repeat split; try reflexivity.
    + intros id Hid. simpl. now apply lookup_insert_ne.
    + intros p [= <-]. eexists. split; [apply lookup_insert_eq|].
      unfold same_but_rating, Product.save, Product.pre_save. simpl. auto.
    + discriminate.
  - repeat split; try reflexivity; try discriminate. intros _. exact E.
Qed.

Lemma write_frame r db db1 :
  write r db = Ok db1 ->
  products db1 = products db /\ orders db1 = orders db
  /\ users db1 = users db /\ interactions db1 = interactions db.
Proof.
  unfold write. on_test; repeat on_test; intros [= <-]; repeat split; reflexivity.
Qed.

(** X21. A review save or deletion touches nothing but the reviews and the
    rating of the review's own product: every other product, the other
    paths of that product, the orders, the users and the interactions are
    as before.  In particular a review moved to another product leaves the
    aggregate of the product it came from as it was. *)
Theorem review_hooks_frame (r : ReviewDocument) (db : Database) :
  (forall r' db',
      save r db = (r', Ok db') ->
      orders db' = orders db /\ users db' = users db
      /\ interactions db' = interactions db
      /\ (forall id, id <> product r -> products db' !! id = products db !! id)
      /\ (forall p, products db !! product r = Some p ->
                    exists p', products db' !! product r = Some p' /\ same_but_rating p p'))
  /\ (orders (deleteOne r db) = orders db /\ users (deleteOne r db) = users db
      /\ interactions (deleteOne r db) = interactions db
      /\ (forall id, id <> product r ->
                     products (deleteOne r db) !! id = products db !! id)
      /\ (forall p, products db !! product r = Some p ->
                    exists p', products (deleteOne r db) !! product r = Some p'
                               /\ same_but_rating p p')).
Proof.
  split.
  - intros r' db'. unfold save. destruct (negb (validate r)); [discriminate|].
    set (r1 := if isNew r then set_verified (isVerifiedPurchase r db) r else r).
    assert (P1 : product r1 = product r) by (unfold r1; destruct (isNew r); reflexivity).
    destruct (write r1 db) as [db1|e] eqn:W; [|discriminate].
    intros [= <- <-]. unfold post_save.
    destruct (write_frame _ _ _ W) as (Wp & Wo & Wu & Wi).
    destruct (update_product_rating_frame (set_isNew false r1) db1)
      as (_ & Fo & Fu & Fi & Fother & Fown & _).
    simpl in Fother, Fown. rewrite P1 in Fother, Fown. rewrite Wp in Fother, Fown.
    rewrite Fo, Fu, Fi. repeat split; auto.
  - unfold deleteOne, post_deleteOne. cbv zeta.
    set (db1 := set_reviews _ db).
    destruct (update_product_rating_frame r db1) as (_ & Fo & Fu & Fi & Fother & Fown & _).
    rewrite Fo, Fu, Fi. repeat split; auto.
Qed.

Lemma review_hooks_frame_witness :
  orders (saved (review_of 100 alice 4) shop) = orders shop.
Proof.
  refine (proj1 (proj1 (review_hooks_frame (review_of 100 alice 4) shop)
                   (fst (save (review_of 100 alice 4) shop))
                   (saved (review_of 100 alice 4) shop) _)).
  vm_compute. reflexivity.
Defined.

(** ** The verified flag *)

Lemma save_verified r db :
  verified (fst (save r db))
  = if isNew r && validate r then isVerifiedPurchase r db else verified r.
Proof.
  unfold save. destruct (validate r); simpl.
  - destruct (isNew r); simpl; destruct (write _ db); reflexivity.
  - now rewrite andb_false_r.
Qed.

(** X22. The verified flag is fixed at creation: a new review that is saved
    gets the answer isVerifiedPurchase gives at that moment, and no later
    save of the document changes it, whatever orders are delivered since. *)
Theorem verified_fixed_at_creation (r r1 : ReviewDocument) (db db1 : Database) :
  isNew r = true ->
  save r db = (r1, Ok db1) ->
  verified r1 = isVerifiedPurchase r db
  /\ forall db2, verified (fst (save r1 db2)) = verified r1.
Proof.
  intros New S.
  assert (V : validate r = true).
  { unfold save in S. destruct (validate r); [reflexivity|discriminate]. }
  assert (N1 : isNew r1 = false).
  { unfold save in S. rewrite V in S. simpl in S.
    destruct (write _ db); [|discriminate]. now injection S as <- _. }
  split.
  - pose proof (save_verified r db) as E. rewrite S, New, V in E. exact E.
  - intros db2. rewrite save_verified, N1. reflexivity.
Qed.

Lemma verified_fixed_at_creation_witness :
  verified (fst (save (review_of 100 alice 4) shop)) = false.
Proof.
  refine (proj1 (verified_fixed_at_creation (review_of 100 alice 4)
                   (fst (save (review_of 100 alice 4) shop)) shop
                   (saved (review_of 100 alice 4) shop) eq_refl _)).
  vm_compute. reflexivity.
Defined.

(** ** Votes *)

(** X23. markAsHelpful keeps the votes consistent: if the voters are
    distinct and the helpful count is their number, the same holds after the
    call, for every identifier and whether or not the save succeeds. *)
Theorem markAsHelpful_keeps_votes (userId : string) (r : ReviewDocument) (db : Database) :
  votes_consistent r -> votes_consistent (fst (markAsHelpful userId r db)).
Proof.
  intros [ND H]. unfold markAsHelpful.
  destruct (new_ObjectId userId) as [u|]; [|now split].
  destruct (includes u (helpfulBy r)) eqn:E; [now split|].
  cbn [negb]. unfold votes_consistent.
  destruct (save_keeps_votes (set_helpful (helpful r + 1) (helpfulBy r ++ [u]) r) db)
    as [-> ->].
  cbn [helpful helpfulBy set_helpful]. split.
  - apply List.NoDup_app; [exact ND|repeat constructor; intros []|].
    intros a Ha [<-|[]]. apply includes_In in Ha. congruence.
  - rewrite H. unfold length_number. rewrite length_app, Nat2Z.inj_add, inject_Z_plus.
    reflexivity.
Qed.

Lemma markAsHelpful_keeps_votes_witness :
  votes_consistent (fst (markAsHelpful carol_id fresh_review no_collections)).
Proof.
  apply markAsHelpful_keeps_votes. split; [constructor|reflexivity].
Defined.

(** ** The aggregate stays in range *)

Lemma ratings_sum_bounds (l : list ReviewDocument) :
  (forall s, In s l -> 1 <= rating s /\ rating s <= 5) ->
  length_number l <= ratings_sum l /\ ratings_sum l <= 5 * length_number l.
Proof.
  induction l as [|a l IH]; intros H.
  - split; discriminate.
  - destruct (H a (or_introl eq_refl)) as [Lo Hi].
    destruct (IH (fun s Hs => H s (or_intror Hs))) as [L1 L2].
    assert (E : length_number (a :: l) == length_number l + 1).
    { unfold length_number. cbn [length]. rewrite Nat2Z.inj_succ, <- Z.add_1_r, inject_Z_plus.
      reflexivity. }
    rewrite E. cbn [ratings_sum]. split; lra.
Qed.

Lemma tenth_acceptable (x y : Q) : 1 <= x -> x <= 5 -> nearest_tenth x y -> 1 <= y /\ y <= 5.
Proof.
  intros X1 X5 ((k & Hk) & Lo & Hi).
  assert (Hy : y * 10 == inject_Z k) by (rewrite Hk; field).
  assert (K1 : (10 <= k)%Z).
  { assert (A : (19 # 2) < inject_Z k) by lra.
    unfold Qlt in A. simpl in A. lia. }
  assert (K5 : (k <= 50)%Z).
  { assert (A : inject_Z k <= (101 # 2)) by lra.
    unfold Qle in A. simpl in A. lia. }
  rewrite Zle_Qle in K1, K5.
  change (inject_Z 10) with 10 in K1. change (inject_Z 50) with 50 in K5.
  split; lra.
Qed.

Lemma recomputed_acceptable id rs agg :
  (forall s, In s rs -> 1 <= rating s /\ rating s <= 5) ->
  recomputed id rs agg -> acceptable agg.
Proof.
  intros V. unfold recomputed. cbv zeta.
  set (approved := List.filter _ rs). intros (C & Z & NZ).
  assert (VA : forall s, In s approved -> 1 <= rating s /\ rating s <= 5).
  { intros s Hs. apply V. unfold approved in Hs. now apply List.filter_In in Hs. }
  destruct approved as [|a l] eqn:E.
  - left. split; [exact C|now apply Z].
  - right. rewrite <- E in *. clear Z.
    assert (N1 : 1 <= inject_Z (Z.of_nat (length approved))).
    { rewrite E. change 1 with (inject_Z 1). rewrite <- Zle_Qle. cbn [length]. lia. }
    split; [now rewrite C|].
    destruct (ratings_sum_bounds approved VA) as [S1 S5]. unfold length_number in S1, S5.
    apply (tenth_acceptable (ratings_sum approved / inject_Z (Z.of_nat (length approved)))).
    + apply Qle_shift_div_l; [lra|]. now rewrite Qmult_1_l.
    + apply Qle_shift_div_r; [lra|]. exact S5.
    + apply NZ. rewrite E. discriminate.
Qed.

Lemma write_reviews r db db1 s :
  write r db = Ok db1 -> In s (reviews db1) -> In s (reviews db) \/ s = set_isNew false r.
Proof.
  unfold write. on_test.
  - on_test; intros [= <-]. simpl. intros H. apply in_app_or in H.
    destruct H as [H|[<-|[]]]; auto.
  - on_test; [discriminate|]. on_test; intros [= <-]. simpl. intros H.
    apply in_map_iff in H. destruct H as (t & <- & Ht).
    destruct (_id t =? _id r)%N; auto.
Qed.

(** X24. While the stored reviews carry ratings from 1 to 5, so they do
    after a save that settles or a deletion, and the aggregate the hook
    leaves on the product is one the product schema accepts: count 0 with
    average 0, or a count of at least 1 with an average between 1 and 5. *)
Theorem rating_stays_acceptable (r : ReviewDocument) (db : Database)
        (p : Product.ProductDocument) :
  ratings_valid db ->
  products db !! product r = Some p ->
  (forall r' db',
      save r db = (r', Ok db') ->
      ratings_valid db'
      /\ exists p', products db' !! product r = Some p' /\ acceptable (Product.ratings p'))
  /\ ratings_valid (deleteOne r db)
  /\ exists p', products (deleteOne r db) !! product r = Some p'
                /\ acceptable (Product.ratings p').
Proof.
  intros V Hp. split.
  - intros r' db'. unfold save. destruct (validate r) eqn:Val; [|discriminate]. cbn [negb].
    set (r1 := if isNew r then set_verified (isVerifiedPurchase r db) r else r).
    assert (P1 : product r1 = product r) by (unfold r1; destruct (isNew r); reflexivity).
    assert (R1 : rating r1 = rating r) by (unfold r1; destruct (isNew r); reflexivity).
    destruct (write r1 db) as [db1|e] eqn:W; [|discriminate].
    intros [= <- <-]. unfold post_save.
    assert (V1 : ratings_valid db1).
    { intros s Hs. destruct (write_reviews _ _ _ _ W Hs) as [H| ->]; [now apply V|].
      cbn [rating set_isNew]. rewrite R1. unfold validate in Val.
      apply andb_true_iff in Val. destruct Val as [A B].
      now apply Qle_bool_iff in A, B. }
    assert (Hp1 : products db1 !! product (set_isNew false r1) = Some p).
    { cbn [product set_isNew]. rewrite P1, (write_products _ _ _ W). exact Hp. }
    destruct (update_product_rating_spec (set_isNew false r1) db1 p Hp1)
      as (Rs & (p' & Hp' & Rec) & _).
    split.
    + intros s. rewrite Rs. apply V1.
    + exists p'. cbn [product set_isNew] in Hp'. rewrite P1 in Hp'.
      split; [exact Hp'|]. eapply recomputed_acceptable; [exact V1|exact Rec].
  - unfold deleteOne, post_deleteOne. cbv zeta.
    set (db1 := set_reviews _ db).
    assert (V1 : ratings_valid db1).
    { intros s Hs. apply V. unfold db1 in Hs. simpl in Hs. now apply List.filter_In in Hs. }
    destruct (update_product_rating_spec r db1 p Hp) as (Rs & (p' & Hp' & Rec) & _).
    split.
    + intros s. rewrite Rs. apply V1.
    + exists p'. split; [exact Hp'|]. eapply recomputed_acceptable; [exact V1|exact Rec].
Qed.

Lemma rating_stays_acceptable_witness :
  ratings_valid (deleteOne (review_of 100 alice 4) two_reviews).
Proof.
  eapply (fun p V H =>
            proj1 (proj2 (rating_stays_acceptable (review_of 100 alice 4) two_reviews p V H))).
  - intros s Hs. vm_compute in Hs.
    destruct Hs as [<-|[<-|[]]]; split; discriminate.
  - vm_compute. reflexivity.
Defined.

End ReviewInvariants.

Module ReviewStatistics.
Import Review ReviewProps.

Lemma Qeq_bool_sym a b : Qeq_bool a b = Qeq_bool b a.
Proof.
  destruct (Qeq_bool a b) eqn:E, (Qeq_bool b a) eqn:F; try reflexivity.
  - apply Qeq_bool_iff in E. symmetry in E. apply Qeq_bool_iff in E. congruence.
  - apply Qeq_bool_iff in F. symmetry in F. apply Qeq_bool_iff in F. congruence.
Qed.

Lemma Qeq_bool_trans_l a b k : a == b -> Qeq_bool a k = Qeq_bool b k.
Proof.
  intros H. destruct (Qeq_bool a k) eqn:E, (Qeq_bool b k) eqn:F; try reflexivity.
  - apply Qeq_bool_iff in E. rewrite H in E. apply Qeq_bool_iff in E. congruence.
  - apply Qeq_bool_iff in F. rewrite <- H in F. apply Qeq_bool_iff in F. congruence.
Qed.

(** *** The groups *)

Lemma group_rating_count r gs k :
  count_in k (group_rating r gs)
  == count_in k gs + (if Qeq_bool (rating r) k then 1 else 0).
Proof.
  induction gs as [|g rest IH]; simpl.
  - destruct (Qeq_bool (rating r) k); ring.
  - destruct (Qeq_bool (stat_id g) (rating r)) eqn:E; simpl.
    + apply Qeq_bool_iff in E. rewrite (Qeq_bool_trans_l _ _ k E).
      destruct (Qeq_bool (rating r) k); ring.
    + rewrite IH. ring.
Qed.

Lemma group_rating_ids r gs k :
  InA Qeq k (map stat_id (group_rating r gs)) <-> InA Qeq k (map stat_id gs) \/ k == rating r.
Proof.
  induction gs as [|g rest IH]; simpl.
  - rewrite !InA_cons, !InA_nil. tauto.
  - destruct (Qeq_bool (stat_id g) (rating r)) eqn:E; simpl.
    + apply Qeq_bool_iff in E. rewrite !InA_cons. split; [tauto|].
      intros [H|H]; [exact H|]. left. now rewrite H, E.
    + rewrite !InA_cons, IH. tauto.
Qed.

Lemma group_rating_distinct r gs :
  NoDupA Qeq (map stat_id gs) -> NoDupA Qeq (map stat_id (group_rating r gs)).
Proof.
  induction gs as [|g rest IH]; simpl; intros ND.
  - constructor; [now rewrite InA_nil|constructor].
  - destruct (Qeq_bool (stat_id g) (rating r)) eqn:E; simpl; [exact ND|].
    inversion ND as [|? ? N1 N2]; subst. constructor; [|now apply IH].
    fold (map stat_id (group_rating r rest)). rewrite group_rating_ids. intros [H|H]; [now apply N1|].
    apply Qeq_bool_iff in H. congruence.
Qed.

Lemma insert_stat_count g l k : count_in k (insert_stat g l) == count_in k (g :: l).
Proof.
  induction l as [|h rest IH]; simpl; [reflexivity|].
  destruct (Qle_bool (stat_id h) (stat_id g)); simpl; [reflexivity|].
  simpl in IH. rewrite IH. ring.
Qed.

Lemma insert_stat_ids g l k :
  InA Qeq k (map stat_id (insert_stat g l)) <-> InA Qeq k (map stat_id (g :: l)).
Proof.
  induction l as [|h rest IH]; simpl; [reflexivity|].
  destruct (Qle_bool (stat_id h) (stat_id g)); simpl; [reflexivity|].
  simpl in IH. rewrite !InA_cons, IH, !InA_cons. tauto.
Qed.

Lemma insert_stat_distinct g l :
  NoDupA Qeq (map stat_id (g :: l)) -> NoDupA Qeq (map stat_id (insert_stat g l)).
Proof.
  induction l as [|h rest IH]; simpl; intros ND; [exact ND|].
  destruct (Qle_bool (stat_id h) (stat_id g)); simpl; [exact ND|].
  inversion ND as [|? ? N1 N2]; subst. inversion N2 as [|? ? N3 N4]; subst.
  constructor.
  - fold (map stat_id (insert_stat g rest)). rewrite insert_stat_ids. simpl. rewrite InA_cons.
    intros [H|H]; [|now apply N3]. apply N1. left. now symmetry.
  - apply IH. simpl. constructor; [|exact N4]. intros H. apply N1. now right.
Qed.

Lemma sort_stats_count l k : count_in k (sort_stats l) == count_in k l.
Proof.
  induction l as [|g rest IH]; simpl; [reflexivity|].
  rewrite insert_stat_count. simpl. now rewrite IH.
Qed.

Lemma sort_stats_ids l k : InA Qeq k (map stat_id (sort_stats l)) <-> InA Qeq k (map stat_id l).
Proof.
  induction l as [|g rest IH]; simpl; [reflexivity|].
  rewrite insert_stat_ids. simpl. rewrite !InA_cons, IH. reflexivity.
Qed.

Lemma sort_stats_distinct l : NoDupA Qeq (map stat_id l) -> NoDupA Qeq (map stat_id (sort_stats l)).
Proof.
  induction l as [|g rest IH]; simpl; intros ND; [constructor|].
  inversion ND as [|? ? N1 N2]; subst.
  apply insert_stat_distinct. simpl. constructor; [|now apply IH].
  fold (map stat_id (sort_stats rest)). now rewrite sort_stats_ids.
Qed.

Lemma with_rating_snoc k l r :
  length_number (with_rating k (l ++ [r]))
  == length_number (with_rating k l) + (if Qeq_bool (rating r) k then 1 else 0).
Proof.
  unfold with_rating. rewrite List.filter_app. simpl.
  destruct (Qeq_bool (rating r) k).
  - apply OrderInvariants.length_number_snoc.
  - rewrite app_nil_r. ring.
Qed.

Lemma grouped l :
  let gs := fold_left (fun groups r => group_rating r groups) l [] in
  NoDupA Qeq (map stat_id gs)
  /\ (forall k, count_in k gs == length_number (with_rating k l))
  /\ (forall k, InA Qeq k (map stat_id gs) <-> exists r, In r l /\ rating r == k).
Proof.
  induction l as [|r l IH] using rev_ind; cbv zeta.
  - simpl. split; [constructor|]. split; [reflexivity|].
    intros k. rewrite InA_nil. split; [tauto|]. now intros (r & [] & _).
  - rewrite fold_left_app. simpl. destruct IH as (ND & Cnt & Ids).
    split; [now apply group_rating_distinct|]. split.
    + intros k. rewrite group_rating_count, Cnt, with_rating_snoc. reflexivity.
    + intros k. rewrite group_rating_ids, Ids. split.
      * intros [(s & Hs & E)|E].
        -- exists s. split; [apply in_or_app; now left|exact E].
        -- exists r. split; [apply in_or_app; right; now left|now symmetry].
      * intros (s & Hs & E). apply in_app_or in Hs. destruct Hs as [Hs|[<-|[]]].
        -- left. now exists s.
        -- right. now symmetry.
Qed.


(** *** The counts of the groups add up *)

Lemma reduce_counts acc gs :
  fold_left (fun sum stat => sum + stat_count stat) gs acc == acc + stat_counts_sum gs.
Proof.
  revert acc. induction gs as [|g rest IH]; intros acc; simpl; [ring|].
  rewrite IH. ring.
Qed.

Lemma group_rating_sum r gs : stat_counts_sum (group_rating r gs) == stat_counts_sum gs + 1.
Proof.
  induction gs as [|g rest IH]; simpl; [ring|].
  destruct (Qeq_bool (stat_id g) (rating r)); simpl; [ring|]. rewrite IH. ring.
Qed.

Lemma insert_stat_sum g l : stat_counts_sum (insert_stat g l) == stat_count g + stat_counts_sum l.
Proof.
  induction l as [|h rest IH]; simpl; [reflexivity|].
  destruct (Qle_bool (stat_id h) (stat_id g)); simpl; [reflexivity|]. rewrite IH. ring.
Qed.

Lemma sort_stats_sum l : stat_counts_sum (sort_stats l) == stat_counts_sum l.
Proof.
  induction l as [|g rest IH]; simpl; [reflexivity|].
  now rewrite insert_stat_sum, IH.
Qed.

Lemma grouped_sum l :
  stat_counts_sum (fold_left (fun groups r => group_rating r groups) l [])
  == length_number l.
Proof.
  induction l as [|r l IH] using rev_ind; [reflexivity|].
  rewrite fold_left_app. simpl. now rewrite group_rating_sum, IH, OrderInvariants.length_number_snoc.
Qed.

(** *** Objects keyed by numbers *)

Lemma get_set_same key k v obj :
  key == k -> get_entry k (set_entry key v obj) = Some v.
Proof.
  intros E. induction obj as [|[k' v'] rest IH]; simpl.
  - apply Qeq_bool_iff in E. now rewrite E.
  - destruct (Qeq_bool k' key) eqn:F; simpl.
    + apply Qeq_bool_iff in F. rewrite (Qeq_bool_trans_l _ _ k F).
      apply Qeq_bool_iff in E. now rewrite E.
    + destruct (Qeq_bool k' k) eqn:G; [|exact IH].
      apply Qeq_bool_iff in G. rewrite <- E in G. apply Qeq_bool_iff in G. congruence.
Qed.

Lemma get_set_other key k v obj :
  ~ key == k -> get_entry k (set_entry key v obj) = get_entry k obj.
Proof.
  intros N. induction obj as [|[k' v'] rest IH]; simpl.
  - destruct (Qeq_bool key k) eqn:E; [|reflexivity]. now apply Qeq_bool_iff in E.
  - destruct (Qeq_bool k' key) eqn:F; simpl.
    + destruct (Qeq_bool k' k) eqn:G; [|reflexivity].
      apply Qeq_bool_iff in F, G. exfalso. apply N. now rewrite <- F.
    + now rewrite IH.
Qed.




(** Filling an object from groups with distinct keys: a key reads the count
    of its group, or what the object held before. *)
Lemma filled k gs obj :
  NoDupA Qeq (map stat_id gs) ->
  get_entry k (fold_left (fun obj stat => set_entry (stat_id stat) (stat_count stat) obj)
                         gs obj)
  = match List.find (fun g => Qeq_bool (stat_id g) k) gs with
    | Some g => Some (stat_count g)
    | None => get_entry k obj
    end.
Proof.
  revert obj. induction gs as [|g rest IH]; intros obj ND; [reflexivity|].
  inversion ND as [|? ? N1 N2]; subst. simpl. rewrite (IH _ N2).
  destruct (Qeq_bool (stat_id g) k) eqn:E.
  - apply Qeq_bool_iff in E.
    destruct (List.find _ rest) as [h|] eqn:F.
    + apply List.find_some in F. destruct F as [Hh F]. apply Qeq_bool_iff in F.
      exfalso. apply N1. apply InA_alt. exists (stat_id h).
      split; [now rewrite E, F|now apply in_map].
    + now apply get_set_same.
  - destruct (List.find _ rest); [reflexivity|]. apply get_set_other.
    intros H. apply Qeq_bool_iff in H. congruence.
Qed.

Lemma find_count k gs :
  NoDupA Qeq (map stat_id gs) ->
  match List.find (fun g => Qeq_bool (stat_id g) k) gs with
  | Some g => stat_count g == count_in k gs
  | None => count_in k gs == 0 /\ ~ InA Qeq k (map stat_id gs)
  end.
Proof.
  induction gs as [|g rest IH]; intros ND; simpl.
  - split; [reflexivity|]. now rewrite InA_nil.
  - inversion ND as [|? ? N1 N2]; subst. specialize (IH N2).
    destruct (Qeq_bool (stat_id g) k) eqn:E.
    + apply Qeq_bool_iff in E. destruct (List.find _ rest) as [h|] eqn:F.
      * apply List.find_some in F. destruct F as [Hh F]. apply Qeq_bool_iff in F.
        exfalso. apply N1. apply InA_alt. exists (stat_id h).
        split; [now rewrite E, F|now apply in_map].
      * destruct IH as [-> _]. ring.
    + destruct (List.find _ rest) as [h|].
      * rewrite IH. ring.
      * destruct IH as [Z NI]. split; [rewrite Z; ring|].
        rewrite InA_cons. intros [H|H]; [|now apply NI].
        symmetry in H. apply Qeq_bool_iff in H. congruence.
Qed.



(** What the aggregation pipeline returns for a product. *)
Lemma aggregate_spec id db :
  NoDupA Qeq (map stat_id (aggregate id db))
  /\ (forall k, count_in k (aggregate id db)
                == length_number (with_rating k (find_approved id db)))
  /\ (forall k, InA Qeq k (map stat_id (aggregate id db))
                <-> exists r, In r (find_approved id db) /\ rating r == k)
  /\ stat_counts_sum (aggregate id db) == length_number (find_approved id db).
Proof.
  unfold aggregate. destruct (grouped (find_approved id db)) as (ND & Cnt & Ids).
  cbv zeta in ND, Cnt, Ids. split; [now apply sort_stats_distinct|]. split; [|split].
  - intros k. now rewrite sort_stats_count.
  - intros k. now rewrite sort_stats_ids.
  - now rewrite sort_stats_sum, grouped_sum.
Qed.



Lemma get_star k :
  get_entry k [(1, 0); (2, 0); (3, 0); (4, 0); (5, 0)]
  = if Qeq_bool 1 k || Qeq_bool 2 k || Qeq_bool 3 k || Qeq_bool 4 k || Qeq_bool 5 k
    then Some 0 else None.
Proof.
  simpl. destruct (Qeq_bool 1 k), (Qeq_bool 2 k), (Qeq_bool 3 k), (Qeq_bool 4 k),
    (Qeq_bool 5 k); reflexivity.
Qed.

Lemma star_test k :
  star k <-> Qeq_bool 1 k || Qeq_bool 2 k || Qeq_bool 3 k || Qeq_bool 4 k || Qeq_bool 5 k = true.
Proof.
  unfold star. rewrite !InA_cons, InA_nil, !orb_true_iff, !Qeq_bool_iff.
  split.
  - intros [H|[H|[H|[H|[H|[]]]]]]; symmetry in H; tauto.
  - intros [[[[H|H]|H]|H]|H]; symmetry in H; tauto.
Qed.

Lemma getProductReviewStats_entries (productId : string) (id : ObjectId) (db : Database) :
  new_ObjectId productId = Some id ->
  exists st,
    getProductReviewStats productId db = Ok st
    /\ totalReviews st == length_number (find_approved id db)
    /\ (forall k, (exists c, get_entry k (ratingDistribution st) = Some c)
                  <-> star k \/ exists r, In r (find_approved id db) /\ rating r == k)
    /\ (forall k c, get_entry k (ratingDistribution st) = Some c ->
                    c == length_number (with_rating k (find_approved id db))).
Proof.
  intros Hid. unfold getProductReviewStats. rewrite Hid. cbv zeta.
  eexists. split; [reflexivity|]. cbn [totalReviews ratingDistribution].
  destruct (aggregate_spec id db) as (ND & Cnt & Ids & Sum).
  split; [now rewrite reduce_counts, Qplus_0_l|].
  assert (Get : forall k,
             get_entry k
               (fold_left (fun obj stat => set_entry (stat_id stat) (stat_count stat) obj)
                          (aggregate id db) [(1, 0); (2, 0); (3, 0); (4, 0); (5, 0)])
             = match List.find (fun g => Qeq_bool (stat_id g) k) (aggregate id db) with
               | Some g => Some (stat_count g)
               | None => get_entry k [(1, 0); (2, 0); (3, 0); (4, 0); (5, 0)]
               end) by (intros k; now apply filled).
  split.
  - intros k. rewrite Get, <- Ids. pose proof (find_count k _ ND) as F.
    destruct (List.find _ (aggregate id db)) as [g|] eqn:E.
    + split; [|now exists (stat_count g)]. intros _. right.
      apply List.find_some in E. destruct E as [Hg E]. apply Qeq_bool_iff in E.
      apply InA_alt. exists (stat_id g). split; [now symmetry|now apply in_map].
    + destruct F as [_ NI]. rewrite get_star, star_test.
      destruct (_ || _); split; try tauto; try (now exists 0).
      * now intros (c & [=]).
      * intros [H|H]; [discriminate|contradiction].
  - intros k c. rewrite Get. pose proof (find_count k _ ND) as F.
    destruct (List.find _ (aggregate id db)) as [g|].
    + intros [= <-]. now rewrite F, Cnt.
    + destruct F as [Z _]. rewrite get_star. destruct (_ || _); [|discriminate].
      intros [= <-]. now rewrite <- Cnt, Z.
Qed.

(** X25. getProductReviewStats, on a well-formed product id: the total is the
    number of approved reviews of the product; the distribution has an entry
    for each of 1 to 5 and for every rating an approved review carries, and
    no other; and each entry is the number of approved reviews with exactly
    that rating. *)
Theorem getProductReviewStats_spec (productId : string) (id : ObjectId) (db : Database) :
  new_ObjectId productId = Some id ->
  exists st,
    getProductReviewStats productId db = Ok st
    /\ totalReviews st == length_number (find_approved id db)
    /\ (forall k, (exists c, get_entry k (ratingDistribution st) = Some c)
                  <-> star k \/ exists r, In r (find_approved id db) /\ rating r == k)
    /\ (forall k c, get_entry k (ratingDistribution st) = Some c ->
                    c == length_number (with_rating k (find_approved id db))).
Proof. apply getProductReviewStats_entries. Qed.

Lemma getProductReviewStats_spec_witness :
  exists st, getProductReviewStats shoe_key two_reviews = Ok st
             /\ totalReviews st == 2
             /\ get_entry 4 (ratingDistribution st) = Some 1
             /\ get_entry 5 (ratingDistribution st) = Some 0.
Proof.
  destruct (getProductReviewStats_spec shoe_key shoe_id two_reviews eq_refl)
    as (st & E & T & _).
  exists st. split; [exact E|]. split; [exact T|].
  vm_compute in E. injection E as <-. split; reflexivity.
Defined.

(** The percentages follow the rounding of the code: 23 reviews out of 40
    give 57, the product being 57.49999999999999 in binary64, and 1 out of
    2 gives 50. *)
Lemma percentage_rounds : percentage 23 40 = 57 /\ percentage 1 2 = 50.
Proof. split; vm_compute; reflexivity. Qed.



End ReviewStatistics.

(* ------------------------------------------------------------------------- *)
(** * The validators of the user schema                                        *)
(* ------------------------------------------------------------------------- *)

Module RegexProps.

Import Regex.

Lemma nullable_spec r : nullable r = true <-> matches r [].
Proof.
  induction r as [| |p|a IHa b IHb|a IHa b IHb|a IH]; simpl.
  - split; [discriminate|]. intros H. inversion H.
  - split; [constructor|reflexivity].
  - split; [discriminate|]. intros H. inversion H.
  - rewrite andb_true_iff, IHa, IHb. split.
    + intros [Ha Hb]. apply (MSeq a b [] [] Ha Hb).
    + intros H. inversion H as [| |? ? s t Ha Hb| | | |]; subst.
      match goal with E : _ ++ _ = [] |- _ => apply app_eq_nil in E; destruct E as [-> ->] end.
      now split.
  - rewrite orb_true_iff, IHa, IHb. split.
    + intros [H|H]; [now apply MAltL|now apply MAltR].
    + intros H. inversion H; subst; tauto.
  - split; [constructor|reflexivity].
Qed.

Lemma star_cons a c s :
  matches (Star a) (c :: s) ->
  exists s1 s2, s = s1 ++ s2 /\ matches a (c :: s1) /\ matches (Star a) s2.
Proof.
  intros H. remember (Star a) as r eqn:Er. remember (c :: s) as l eqn:El.
  revert c s El. induction H as [| | | | | |a' u t Hu _ Ht IH]; try discriminate.
  injection Er as ->. intros c s El. destruct u as [|d u].
  - simpl in El. now apply IH.
  - simpl in El. injection El as -> <-. now exists u, t.
Qed.

Lemma derive_spec c r s : matches (derive c r) s <-> matches r (c :: s).
Proof.
  revert s. induction r as [| |p|a IHa b IHb|a IHa b IHb|a IH]; intros s; simpl.
  - split; intros H; inversion H.
  - split; intros H; inversion H.
  - destruct (p c) eqn:E; split; intros H; inversion H; subst.
    + now constructor.
    + constructor.
    + congruence.
  - assert (Fwd : forall u, matches (Seq (derive c a) b) u -> matches (Seq a b) (c :: u)).
    { intros u H. inversion H as [| |? ? s1 s2 H1 H2| | | |]; subst.
      apply IHa in H1. apply (MSeq a b (c :: s1) s2 H1 H2). }
    assert (Bwd : forall u, matches (Seq a b) (c :: u) ->
                            matches (Seq (derive c a) b) u
                            \/ (matches a [] /\ matches b (c :: u))).
    { intros u H. inversion H as [| |? ? s1 s2 H1 H2| | | |]; subst.
      match goal with E : _ ++ _ = _ :: _ |- _ => rename E into E' end.
      destruct s1 as [|d s1]; simpl in E'.
      - subst s2. right. now split.
      - injection E' as -> <-. left. apply MSeq; [now apply IHa|exact H2]. }
    destruct (nullable a) eqn:N.
    + split.
      * intros H. inversion H; subst; [now apply Fwd|].
        apply nullable_spec in N. apply (MSeq a b [] (c :: s) N). now apply IHb.
      * intros H. destruct (Bwd s H) as [L|[_ R]]; [now apply MAltL|].
        apply MAltR. now apply IHb.
    + split; [apply Fwd|]. intros H. destruct (Bwd s H) as [L|[E _]]; [exact L|].
      apply nullable_spec in E. congruence.
  - split; intros H; inversion H; subst.
    + apply MAltL. now apply IHa.
    + apply MAltR. now apply IHb.
    + apply MAltL. now apply IHa.
    + apply MAltR. now apply IHb.
  - split.
    + intros H. inversion H as [| |? ? s1 s2 H1 H2| | | |]; subst.
      apply IH in H1. apply (MStarS a (c :: s1) s2 H1 H2).
    + intros H. apply star_cons in H. destruct H as (s1 & s2 & -> & H1 & H2).
      apply MSeq; [now apply IH|exact H2].
Qed.

(** [test] decides the language of the pattern. *)
Lemma test_spec r s : test r s = true <-> matches r s.
Proof.
  revert r. induction s as [|c s IH]; intros r; simpl.
  - apply nullable_spec.
  - rewrite IH. apply derive_spec.
Qed.

(** *** The languages of the building blocks *)

Lemma matches_eps s : matches Eps s <-> s = [].
Proof. split; [intros H; now inversion H|intros ->; constructor]. Qed.

Lemma matches_class p s : matches (Class p) s <-> exists c, s = [c] /\ p c = true.
Proof.
  split.
  - intros H. inversion H; subst. eauto.
  - intros (c & -> & H). now constructor.
Qed.

Lemma matches_chr c s : matches (Chr c) s <-> s = [c].
Proof.
  unfold Chr. rewrite matches_class. split.
  - intros (d & -> & E). apply Ascii.eqb_eq in E. now subst.
  - intros ->. exists c. split; [reflexivity|apply Ascii.eqb_refl].
Qed.

Lemma matches_seq a b s :
  matches (Seq a b) s <-> exists u v, s = u ++ v /\ matches a u /\ matches b v.
Proof.
  split.
  - intros H. inversion H; subst. eauto.
  - intros (u & v & -> & Hu & Hv). now constructor.
Qed.

Lemma matches_alt a b s : matches (Alt a b) s <-> matches a s \/ matches b s.
Proof.
  split.
  - intros H. inversion H; subst; tauto.
  - intros [H|H]; [now apply MAltL|now apply MAltR].
Qed.

Lemma matches_opt a s : matches (Opt a) s <-> matches a s \/ s = [].
Proof. unfold Opt. now rewrite matches_alt, matches_eps. Qed.

Lemma matches_lit l s : matches (Lit l) s <-> s = l.
Proof.
  revert s. induction l as [|c l IH]; intros s; simpl.
  - apply matches_eps.
  - rewrite matches_seq. split.
    + intros (u & v & -> & Hu & Hv). apply matches_chr in Hu. apply IH in Hv. now subst.
    + intros ->. exists [c], l. split; [reflexivity|]. split; [now apply matches_chr|now apply IH].
Qed.

Lemma matches_repeat n p s :
  matches (Repeat n (Class p)) s
  <-> length s = n /\ List.Forall (fun c => p c = true) s.
Proof.
  revert s. induction n as [|n IH]; intros s; simpl.
  - rewrite matches_eps. split.
    + intros ->. now split.
    + intros [E _]. now destruct s.
  - rewrite matches_seq. split.
    + intros (u & v & -> & Hu & Hv). apply matches_class in Hu. destruct Hu as (c & -> & Hc).
      apply IH in Hv. destruct Hv as [<- F]. split; [reflexivity|now constructor].
    + intros [E F]. destruct s as [|c s]; [discriminate|]. inversion F; subst.
      exists [c], s. split; [reflexivity|]. split; [now constructor|].
      apply IH. split; [now injection E|assumption].
Qed.

Lemma matches_at_most n p s :
  matches (AtMost n (Class p)) s
  <-> (length s <= n)%nat /\ List.Forall (fun c => p c = true) s.
Proof.
  revert s. induction n as [|n IH]; intros s; simpl.
  - rewrite matches_eps. split.
    + intros ->. split; [reflexivity|constructor].
    + intros [E _]. destruct s; [reflexivity|simpl in E; lia].
  - rewrite matches_opt, matches_seq. split.
    + intros [(u & v & -> & Hu & Hv)| ->].
      * apply matches_class in Hu. destruct Hu as (c & -> & Hc).
        apply IH in Hv. destruct Hv as [L F]. split; [simpl; lia|now constructor].
      * split; [simpl; lia|constructor].
    + intros [E F]. destruct s as [|c s]; [now right|]. left. inversion F; subst.
      exists [c], s. split; [reflexivity|]. split; [now constructor|].
      apply IH. split; [simpl in E; lia|assumption].
Qed.

Lemma matches_star_class p s :
  matches (Star (Class p)) s <-> List.Forall (fun c => p c = true) s.
Proof.
  split.
  - intros H. remember (Star (Class p)) as r eqn:Er.
    induction H as [| | | | | |a u t Hu _ Ht IH]; try discriminate; [constructor|].
    injection Er as ->. inversion Hu; subst. constructor; [assumption|now apply IH].
  - induction s as [|c s IH]; intros F; [constructor|]. inversion F; subst.
    apply (MStarS (Class p) [c] s); [now constructor|now apply IH].
Qed.

Lemma matches_plus_class p s :
  matches (Plus (Class p)) s <-> s <> [] /\ List.Forall (fun c => p c = true) s.
Proof.
  unfold Plus. rewrite matches_seq. split.
  - intros (u & v & -> & Hu & Hv). apply matches_class in Hu. destruct Hu as (c & -> & Hc).
    apply matches_star_class in Hv. split; [discriminate|now constructor].
  - intros [NE F]. destruct s as [|c s]; [congruence|]. inversion F; subst.
    exists [c], s. split; [reflexivity|]. split; [now constructor|now apply matches_star_class].
Qed.

(** The last iteration of [a+]. *)
Lemma star_then_one a t :
  matches (Star a) t ->
  forall x, matches a x ->
            exists u v, x ++ t = u ++ v /\ matches (Star a) u /\ matches a v.
Proof.
  intros H. remember (Star a) as r eqn:Er.
  induction H as [| | | | | |a' s1 t2 H1 _ H2 IH]; try discriminate.
  - injection Er as ->. intros x Hx. exists [], x. rewrite app_nil_r.
    split; [reflexivity|]. split; [constructor|exact Hx].
  - injection Er as ->. intros x Hx.
    destruct (IH eq_refl s1 H1) as (u & v & E & Hu & Hv).
    exists (x ++ u), v. rewrite E, app_assoc. split; [reflexivity|].
    split; [now constructor|exact Hv].
Qed.

Lemma plus_last a s :
  matches (Plus a) s <-> exists u v, s = u ++ v /\ matches (Star a) u /\ matches a v.
Proof.
  unfold Plus. rewrite matches_seq. split.
  - intros (x & t & -> & Hx & Ht). now apply star_then_one.
  - intros (u & v & -> & Hu & Hv). revert v Hv.
    remember (Star a) as r eqn:Er.
    induction Hu as [| | | | | |a' s1 t2 H1 _ H2 IH]; try discriminate.
    + intros v Hv. exists v, []. rewrite app_nil_r. split; [reflexivity|].
      split; [exact Hv|constructor].
    + injection Er as ->. intros v Hv.
      destruct (IH eq_refl v Hv) as (x & t & E & Hx & Ht).
      exists s1, (t2 ++ v). rewrite <- app_assoc. split; [reflexivity|].
      split; [exact H1|]. rewrite E. now constructor.
Qed.

(** A function of strings that every match of [a] leaves alone is left
    alone by every match of [a*]. *)
Lemma star_absorbed {B} (f : list ascii -> B) a :
  (forall x, matches a x -> forall u, f (x ++ u) = f u) ->
  forall t, matches (Star a) t -> forall u, f (t ++ u) = f u.
Proof.
  intros Hf t H. remember (Star a) as r eqn:Er.
  induction H as [| | | | | |a' s1 t2 H1 _ H2 IH]; try discriminate.
  - reflexivity.
  - injection Er as ->. intros u. rewrite <- app_assoc, (Hf s1 H1). now apply IH.
Qed.

End RegexProps.

Module UserProps.

Import Regex RegexProps User.

Lemma separator_not_word c : separator c = true -> word c = false.
Proof. destruct c as [[] [] [] [] [] [] [] []]; vm_compute; congruence. Qed.

Lemma at_not_label c : Ascii.eqb c "@" = true -> word c = false /\ separator c = false.
Proof. intros E. apply Ascii.eqb_eq in E. now subst. Qed.

(** *** Phone numbers *)

(** X27. The phone pattern accepts exactly the strings made of one of the
    prefixes +254, 254 and 0, then a 1 or a 7, then eight decimal digits. *)
Theorem phone_pattern_spec (s : list ascii) :
  test phone_pattern s = true
  <-> exists prefix d rest,
      s = prefix ++ d :: rest
      /\ (prefix = list_ascii_of_string "+254" \/ prefix = list_ascii_of_string "254"
          \/ prefix = list_ascii_of_string "0")
      /\ (d = "1"%char \/ d = "7"%char)
      /\ length rest = 8%nat
      /\ List.Forall (fun c => digit c = true) rest.
Proof.
  rewrite test_spec. unfold phone_pattern.
  rewrite matches_seq. split.
  - intros (prefix & v & -> & Hp & Hv).
    rewrite !matches_alt, !matches_lit in Hp.
    apply matches_seq in Hv. destruct Hv as (x & rest & -> & Hx & Hr).
    apply matches_class in Hx. destruct Hx as (d & -> & Hd).
    apply matches_repeat in Hr. destruct Hr as [L F].
    exists prefix, d, rest. split; [reflexivity|]. split; [exact Hp|].
    split; [|now split].
    apply orb_true_iff in Hd. destruct Hd as [E|E]; apply Ascii.eqb_eq in E; tauto.
  - intros (prefix & d & rest & -> & Hp & Hd & L & F).
    exists prefix, (d :: rest). split; [reflexivity|]. split.
    + now rewrite !matches_alt, !matches_lit.
    + apply (MSeq _ _ [d] rest).
      * constructor. destruct Hd as [-> | ->]; reflexivity.
      * apply matches_repeat. now split.
Qed.

(** *** Email addresses *)

Lemma words_absorbed ws t :
  List.Forall (fun c => word c = true) ws ->
  labels_from true (ws ++ t) = labels_from true t.
Proof.
  induction 1 as [|c ws Hc _ IH]; [reflexivity|]. simpl. now rewrite Hc.
Qed.

Lemma words_start b ws t :
  ws <> [] -> List.Forall (fun c => word c = true) ws ->
  labels_from b (ws ++ t) = labels_from true t.
Proof.
  intros NE F. destruct ws as [|c ws]; [congruence|]. inversion F; subst.
  simpl. rewrite H1. now apply words_absorbed.
Qed.

Lemma label_absorbed x :
  matches (Seq (Opt (Class separator)) (Plus (Class word))) x ->
  forall u, labels_from true (x ++ u) = labels_from true u.
Proof.
  intros H u. apply matches_seq in H. destruct H as (o & ws & -> & Ho & Hw).
  apply matches_plus_class in Hw. destruct Hw as [NE F].
  apply matches_opt in Ho. rewrite <- app_assoc. destruct Ho as [Ho| ->].
  - apply matches_class in Ho. destruct Ho as (c & -> & Hc). simpl.
    rewrite (separator_not_word c Hc), Hc. simpl. now apply words_start.
  - simpl. now apply words_start.
Qed.

Lemma labels_from_matches t :
  (labels_from true t = true ->
   matches (Star (Seq (Opt (Class separator)) (Plus (Class word)))) t)
  /\ (labels_from false t = true ->
      exists c t', t = c :: t' /\ word c = true
                   /\ matches (Star (Seq (Opt (Class separator)) (Plus (Class word)))) t').
Proof.
  induction t as [|c t [IH1 IH2]]; simpl.
  - split; [constructor|discriminate].
  - destruct (word c) eqn:W.
    + split.
      * intros H. apply (MStarS _ [c] t); [|now apply IH1].
        apply (MSeq _ _ [] [c]); [apply MAltR; constructor|].
        apply matches_plus_class. split; [discriminate|]. now repeat constructor.
      * intros H. exists c, t. split; [reflexivity|]. split; [exact W|now apply IH1].
    + rewrite andb_false_r. split; [|discriminate].
      destruct (separator c) eqn:S; [|discriminate]. simpl. intros H.
      destruct (IH2 H) as (d & t' & -> & Hd & Ht').
      apply (MStarS _ [c; d] t'); [|exact Ht'].
      apply (MSeq _ _ [c] [d]); [apply MAltL; now constructor|].
      apply matches_plus_class. split; [discriminate|]. now repeat constructor.
Qed.

(** The label pattern accepts exactly the strings [labels] accepts. *)
Lemma labels_pattern_spec s : matches labels_pattern s <-> labels s = true.
Proof.
  unfold labels_pattern, labels. rewrite matches_seq. split.
  - intros (ws & t & -> & Hw & Ht). apply matches_plus_class in Hw. destruct Hw as [NE F].
    rewrite (words_start false ws t NE F).
    rewrite <- (app_nil_r t).
    now rewrite (star_absorbed (labels_from true) _ label_absorbed t Ht []).
  - intros H. destruct (proj2 (labels_from_matches s) H) as (c & t & -> & Hc & Ht).
    exists [c], t. split; [reflexivity|]. split; [|exact Ht].
    apply matches_plus_class. split; [discriminate|]. now repeat constructor.
Qed.

Lemma labels_from_app b d u :
  labels_from b d = true -> labels_from b (d ++ u) = labels_from true u.
Proof.
  revert b. induction d as [|c d IH]; intros b; simpl.
  - now intros ->.
  - destruct (word c); [apply IH|]. destruct (separator c && b); [apply IH|discriminate].
Qed.

Lemma suffix_absorbed x :
  matches (Seq (Chr ".") (Seq (Repeat 2 (Class word)) (AtMost 1 (Class word)))) x ->
  forall u, labels_from true (x ++ u) = labels_from true u.
Proof.
  intros H u. apply matches_seq in H. destruct H as (dot & ws & -> & Hd & Hw).
  apply matches_chr in Hd. subst dot.
  apply matches_seq in Hw. destruct Hw as (w2 & w1 & -> & H2 & H1).
  apply matches_repeat in H2. destruct H2 as [L2 F2].
  apply matches_at_most in H1. destruct H1 as [_ F1].
  simpl. apply words_start.
  - destruct w2; [discriminate|discriminate].
  - apply List.Forall_app. now split.
Qed.

Lemma email_shape (s : list ascii) :
  test email_pattern s = true
  <-> exists local host tld,
      s = local ++ "@"%char :: host ++ "."%char :: tld
      /\ labels local = true
      /\ labels host = true
      /\ List.Forall (fun c => word c = true) tld
      /\ (2 <= length tld <= 3)%nat.
Proof.
  rewrite test_spec. unfold email_pattern. rewrite matches_seq. split.
  - intros (l & r1 & -> & Hl & H1). apply labels_pattern_spec in Hl.
    apply matches_seq in H1. destruct H1 as (a & r2 & -> & Ha & H2).
    apply matches_chr in Ha. subst a.
    apply matches_seq in H2. destruct H2 as (d & t & -> & Hd & Ht).
    apply labels_pattern_spec in Hd.
    apply plus_last in Ht. destruct Ht as (t' & x & -> & Ht' & Hx).
    apply matches_seq in Hx. destruct Hx as (dot & tld & -> & Hdot & Htld).
    apply matches_chr in Hdot. subst dot.
    apply matches_seq in Htld. destruct Htld as (w2 & w1 & -> & H2 & H1).
    apply matches_repeat in H2. destruct H2 as [L2 F2].
    apply matches_at_most in H1. destruct H1 as [L1 F1].
    exists l, (d ++ t'), (w2 ++ w1). split; [|split; [exact Hl|split; [|split]]].
    + simpl. now rewrite <- !app_assoc.
    + unfold labels in *. rewrite (labels_from_app _ _ _ Hd).
      rewrite <- (app_nil_r t').
      now rewrite (star_absorbed (labels_from true) _ suffix_absorbed t' Ht' []).
    + apply List.Forall_app. now split.
    + rewrite length_app. lia.
  - intros (l & h & tld & -> & Hl & Hh & F & L).
    exists l, ("@"%char :: h ++ "."%char :: tld). split; [reflexivity|].
    split; [now apply labels_pattern_spec|].
    apply (MSeq _ _ ["@"%char] (h ++ "."%char :: tld)); [now apply matches_chr|].
    apply MSeq; [now apply labels_pattern_spec|].
    apply plus_last. exists [], ("."%char :: tld). split; [reflexivity|].
    split; [constructor|].
    apply (MSeq _ _ ["."%char] tld); [now apply matches_chr|].
    destruct tld as [|c1 [|c2 rest]]; simpl in L; try lia.
    inversion F as [|? ? Fc1 F']; subst. inversion F' as [|? ? Fc2 F'']; subst.
    apply (MSeq _ _ [c1; c2] rest).
    + apply matches_repeat. split; [reflexivity|]. now repeat constructor.
    + apply matches_at_most. split; [simpl in *; lia|exact F''].
Qed.

(** X28. The email pattern accepts exactly the strings local@host.tld in
    which local and host are word characters with single dots or hyphens
    between them (none at either end, no two in a row) and tld is two or
    three word characters. *)
Theorem email_pattern_spec (s : list ascii) :
  test email_pattern s = true
  <-> exists local host tld,
      s = local ++ "@"%char :: host ++ "."%char :: tld
      /\ labels local = true
      /\ labels host = true
      /\ List.Forall (fun c => word c = true) tld
      /\ (2 <= length tld <= 3)%nat.
Proof. apply email_shape. Qed.

End UserProps.

(* ------------------------------------------------------------------------- *)
(** * Binary64: the sign of a difference                                       *)
(* ------------------------------------------------------------------------- *)

(** From the specification of the primitive operations ([sub_spec],
    [ltb_spec]) and the validity of their operands: a difference [x - y] is
    below zero only if [x < y]. *)
Module Binary64Sign.

Local Open Scope Z_scope.

Lemma digits2_pos_bounds m :
  2 ^ (Zpos (digits2_pos m) - 1) <= Zpos m < 2 ^ Zpos (digits2_pos m).
Proof.
  induction m as [h IH|h IH|]; cbn [digits2_pos].
  - rewrite Pos2Z.inj_succ.
    replace (Z.succ (Zpos (digits2_pos h)) - 1) with (Z.succ (Zpos (digits2_pos h) - 1)) by lia.
    rewrite !Z.pow_succ_r by lia. lia.
  - rewrite Pos2Z.inj_succ.
    replace (Z.succ (Zpos (digits2_pos h)) - 1) with (Z.succ (Zpos (digits2_pos h) - 1)) by lia.
    rewrite !Z.pow_succ_r by lia. lia.
  - cbn. lia.
Qed.

Lemma shl_align_value mx ex ez :
  ez <= ex -> Zpos (fst (shl_align mx ex ez)) = Zpos mx * 2 ^ (ex - ez).
Proof.
  intros H. unfold shl_align. destruct (ez - ex) as [|d|d] eqn:E; cbn [fst].
  - replace (ex - ez) with 0 by lia. cbn. lia.
  - lia.
  - change (Pos.iter xO mx d) with (shift_pos d mx).
    rewrite shift_pos_correct, Z.pow_pos_fold.
    replace (ex - ez) with (Zpos d) by lia. lia.
Qed.

(** Of two valid finite doubles, the one with the larger exponent has the
    larger magnitude. *)
Lemma larger_exponent m1 e1 m2 e2 :
  bounded prec emax m1 e1 = true -> bounded prec emax m2 e2 = true ->
  e2 < e1 -> Zpos m2 < Zpos m1 * 2 ^ (e1 - e2).
Proof.
  unfold bounded, canonical_mantissa, fexp, emin. intros B1 B2 L.
  apply andb_prop in B1. destruct B1 as [C1 _]. apply andb_prop in B2. destruct B2 as [C2 _].
  apply Z.eqb_eq in C1, C2.
  pose proof (digits2_pos_bounds m1) as [L1 _].
  pose proof (digits2_pos_bounds m2) as [_ U2].
  set (d1 := Zpos (digits2_pos m1)) in *. set (d2 := Zpos (digits2_pos m2)) in *.
  assert (D1 : d1 = prec) by lia.
  assert (D2 : d2 <= prec) by lia.
  assert (P : 2 ^ d2 <= 2 ^ prec) by (apply Z.pow_le_mono_r; lia).
  assert (Q : 2 ^ 1 <= 2 ^ (e1 - e2)) by (apply Z.pow_le_mono_r; lia).
  assert (R : 2 ^ prec = 2 ^ (prec - 1) * 2 ^ 1).
  { reflexivity. }
  rewrite D1 in L1.
  assert (S : 2 ^ (prec - 1) * 2 ^ 1 <= Zpos m1 * 2 ^ (e1 - e2)).
  { apply Z.mul_le_mono_nonneg; first [lia | apply Z.pow_nonneg; lia]. }
  lia.
Qed.

Lemma binary_round_sign m e :
  SFltb (binary_round prec emax false m e) (S754_zero false) = false.
Proof.
  unfold binary_round, binary_round_aux.
  destruct (shl_align _ _ _) as [mz ez].
  destruct (shr_fexp _ _ _ _ _) as [mrs' e'].
  destruct (shr_fexp _ _ _ _ _) as [mrs'' e''].
  destruct (shr_m mrs''); [reflexivity| |reflexivity].
  destruct (_ <=? _); reflexivity.
Qed.

Lemma normalize_sign m e :
  0 <= m -> SFltb (binary_normalize prec emax m e false) (S754_zero false) = false.
Proof.
  intros H. destruct m as [|m|m]; [reflexivity|apply binary_round_sign|lia].
Qed.

Lemma compare_cont_ge m1 m2 :
  Pos.compare_cont Eq m1 m2 <> Lt -> Zpos m2 <= Zpos m1.
Proof. change (Pos.compare_cont Eq m1 m2) with (Pos.compare m1 m2). intros H.
  destruct (Pos.compare_spec m1 m2); try congruence; lia. Qed.

Lemma compare_cont_le m1 m2 :
  Pos.compare_cont Eq m1 m2 <> Gt -> Zpos m1 <= Zpos m2.
Proof. change (Pos.compare_cont Eq m1 m2) with (Pos.compare m1 m2). intros H.
  destruct (Pos.compare_spec m1 m2); try congruence; lia. Qed.

(** A difference of doubles is not below zero unless the first is below the
    second. *)
Lemma SFsub_not_negative X Y :
  SpecFloat.valid_binary prec emax X = true ->
  SpecFloat.valid_binary prec emax Y = true ->
  SFltb X Y = false ->
  SFltb (SFsub prec emax X Y) (S754_zero false) = false.
Proof.
  intros VX VY H.
  destruct X as [sx|sx| |sx mx ex], Y as [sy|sy| |sy my ey].
  all: try solve [repeat match goal with s : bool |- _ => destruct s end;
                  first [reflexivity | discriminate H]].
  cbn [SpecFloat.valid_binary] in VX, VY. cbn [SFsub]. cbv zeta.
    apply normalize_sign.
    rewrite !shl_align_value by lia.
    unfold SFltb, SFcompare in H.
    assert (P1 : 0 < Zpos mx * 2 ^ (ex - Z.min ex ey)).
    { apply Z.mul_pos_pos; [lia|]. apply Z.pow_pos_nonneg; lia. }
    assert (P2 : 0 < Zpos my * 2 ^ (ey - Z.min ex ey)).
    { apply Z.mul_pos_pos; [lia|]. apply Z.pow_pos_nonneg; lia. }
    destruct sx, sy; cbn [cond_Zopp]; try discriminate H;
      change IntDef.Z.sub with Z.sub; change IntDef.Z.opp with Z.opp;
      change IntDef.Z.min with Z.min; try lia.
    + (* both negative *)
      destruct (ex ?= ey) eqn:C.
      * apply Z.compare_eq in C. subst ey. rewrite Z.min_id, Z.sub_diag, !Z.mul_1_r.
        assert (Pos.compare_cont Eq mx my <> Gt).
        { intros G. rewrite G in H. discriminate H. }
        pose proof (compare_cont_le mx my H0). lia.
      * assert (L : ex < ey) by exact C. clear C.
        pose proof (larger_exponent my ey mx ex VY VX L).
        rewrite Z.min_l by lia. rewrite Z.sub_diag, Z.mul_1_r. lia.
      * discriminate H.
    + (* both positive *)
      destruct (ex ?= ey) eqn:C.
      * apply Z.compare_eq in C. subst ey. rewrite Z.min_id, Z.sub_diag, !Z.mul_1_r.
        assert (Pos.compare_cont Eq mx my <> Lt).
        { intros G. rewrite G in H. discriminate H. }
        pose proof (compare_cont_ge mx my H0). lia.
      * discriminate H.
      * assert (L : ey < ex) by (now apply Z.compare_gt_iff). clear C.
        pose proof (larger_exponent mx ex my ey VX VY L).
        rewrite Z.min_r by lia. rewrite Z.sub_diag, Z.mul_1_r. lia.
Qed.

Lemma sub_not_negative (x y : float) :
  (x <? y)%float = false -> (x - y <? 0)%float = false.
Proof.
  rewrite !ltb_spec, sub_spec. intros H.
  change (Prim2SF 0) with (S754_zero false).
  apply SFsub_not_negative; auto using Prim2SF_valid.
Qed.

End Binary64Sign.

(* ------------------------------------------------------------------------- *)
(** * Totals, stock and discounts on binary64                                   *)
(* ------------------------------------------------------------------------- *)

Module Binary64Props.

Import Binary64.
Local Open Scope float_scope.
#[local] Set Warnings "-inexact-float".

(** 20 percent off 100 is exactly 80, and 150 percent off 100 exactly -50. *)
Lemma percentage_examples :
  percentage_price 100 20 = 80 /\ percentage_price 100 150 = -50.
Proof. split; vm_compute; reflexivity. Qed.

(** A fixed 150 off 100 is clamped to 0. *)
Lemma fixed_example : fixed_price 100 150 = 0.
Proof. vm_compute. reflexivity. Qed.

(** Ratings 4 and 2: ten times the mean is the integer 30, which Math.round
    returns unchanged, and 30 / 10 is 3; for the rating 2 alone, 20 and 2. *)
Lemma mean_examples :
  ten_times_mean (0 + 4 + 2) 2 = 30 /\ 30 / 10 = 3
  /\ ten_times_mean (0 + 2) 1 = 20 /\ 20 / 10 = 2.
Proof. repeat split; vm_compute; reflexivity. Qed.

(** ** Totals *)

Lemma reduce_items acc items :
  fold_left (fun sum item => sum + Order.price item * Order.quantity item) items acc
  = Order.sum_from acc items.
Proof.
  revert acc. induction items as [|i rest IH]; intros acc; simpl; [reflexivity|apply IH].
Qed.

Lemma number_or_zero (d : float) :
  is_nan d = false -> (d =? number_or d 0) = true.
Proof.
  intros N. unfold number_or, truthy. rewrite N, orb_false_r.
  destruct (is_zero d) eqn:Z; cbn [negb].
  - exact Z.
  - unfold is_nan in N. now apply negb_false_iff in N.
Qed.

(** C1. calculateTotals, in the arithmetic of the code: subtotal is the sum
    of price times quantity over the items, added up in their order; tax is
    0.16 times the subtotal; shipping is 0 when the subtotal is strictly
    above 5000 and 200 otherwise; discount is the one carried by the pricing
    snapshot (0 without one); total is subtotal + tax + shipping - discount. *)
Theorem calculateTotals_spec (o : Order.OrderDocument) :
  let r := Order.calculateTotals o in
  Order.subtotal r = Order.line_items_sum (Order.items o)
  /\ Order.tax r = Order.subtotal r * 0.16
  /\ ((5000 <? Order.subtotal r) = true -> Order.shipping r = 0)
  /\ ((5000 <? Order.subtotal r) = false -> Order.shipping r = 200)
  /\ (Order.pricing o = None -> Order.discount r = 0)
  /\ (forall p, Order.pricing o = Some p -> is_nan (Order.discount p) = false ->
                (Order.discount p =? Order.discount r) = true)
  /\ Order.total r
     = Order.subtotal r + Order.tax r + Order.shipping r - Order.discount r.
Proof.
  cbv zeta. unfold Order.calculateTotals.
  cbn [Order.subtotal Order.tax Order.shipping Order.discount Order.total].
  repeat split.
  - apply reduce_items.
  - intros H. now rewrite H.
  - intros H. now rewrite H.
  - intros H. now rewrite H.
  - intros p Hp N. rewrite Hp. now apply number_or_zero.
Qed.

(** The totals follow the rounding of the code: three lines whose decimal
    prices add up to 5000 give a subtotal just above it, hence free
    shipping; three units at 0.1 give 0.30000000000000004. *)
Lemma calculateTotals_rounds :
  Order.subtotal (Order.calculateTotals Order.near_threshold) = 5000.000000000001
  /\ Order.shipping (Order.calculateTotals Order.near_threshold) = 0
  /\ Order.subtotal (Order.calculateTotals Order.three_tenths) = 0.30000000000000004
  /\ Order.shipping (Order.calculateTotals Order.three_tenths) = 200
  /\ Order.discount (Order.calculateTotals Order.three_tenths) = 0.05.
Proof. repeat split; vm_compute; reflexivity. Qed.

(** ** Stock *)



(** The stock follows the rounding of the code: 0.3 - 0.1 leaves
    0.19999999999999998, and after 0.9 out of a stock of 1 a further 0.1 is
    refused, where 0.9 + 0.1 in one call empties the stock. *)
Lemma reduceStock_rounds :
  Product.stock (fst (Product.reduceStock 0.1 (Product.mkProduct 100 0.3 None)))
  = 0.19999999999999998
  /\ snd (Product.reduceStock 0.1
            (fst (Product.reduceStock 0.9 (Product.mkProduct 100 1 None))))
     = Err InsufficientStock
  /\ Product.reduceStock (0.9 + 0.1) (Product.mkProduct 100 1 None)
     = (Product.mkProduct 100 0 None, Ok tt).
Proof. repeat split; vm_compute; reflexivity. Qed.

(** X29. In the arithmetic of the code a reduction never leaves the stock
    below zero: once the guard has passed, the difference is not below
    zero, so the schema minimum never rejects the save.  The call is refused
    with the insufficient-stock error exactly when the stock is below the
    quantity, and with a validation error only when the difference is not a
    number. *)
Theorem reduceStock_never_below_zero (qty : float) (p : Product.ProductDocument) :
  (snd (Product.reduceStock qty p) = Ok tt ->
   (Product.stock (fst (Product.reduceStock qty p)) <? 0) = false
   /\ is_nan (Product.stock (fst (Product.reduceStock qty p))) = false)
  /\ (snd (Product.reduceStock qty p) = Err ValidationError ->
      is_nan (Product.stock p - qty) = true)
  /\ (snd (Product.reduceStock qty p) = Err InsufficientStock
      <-> (Product.stock p <? qty) = true).
Proof.
  unfold Product.reduceStock.
  destruct (Product.stock p <? qty) eqn:G; cbn [snd fst].
  - repeat split; try discriminate; reflexivity.
  - cbv zeta. rewrite (Binary64Sign.sub_not_negative _ _ G).
    destruct (is_nan (Product.stock p - qty)) eqn:N; cbn [snd fst].
    + repeat split; try discriminate; reflexivity.
    + repeat split; try discriminate.
      * exact (Binary64Sign.sub_not_negative _ _ G).
      * exact N.
Qed.

(** ** Discounts *)








(** What rounding and a missing value do to the discounted price. *)
Lemma calculateDiscountedPrice_rounds :
  Product.calculateDiscountedPrice 0
    (Product.product_with (Product.mkDiscount (Some "percentage"%string) (Some 80) None None))
  = 19.999999999999996
  /\ is_nan (Product.calculateDiscountedPrice 0
               (Product.product_with (Product.mkDiscount (Some "fixed"%string) None None None)))
     = true.
Proof. split; vm_compute; reflexivity. Qed.

End Binary64Props.
